(** * Student360: the pure core of [src/App.jsx]

    A shallow embedding of the helper functions and of the stateful
    handlers of the Student360 web client, followed by the properties
    that the system description states about them.

    Part I is the model.  JavaScript strings are sequences of UTF-16
    code units, written as lists of [N]; documents of the student
    collection live in a finite map keyed by the student identifier;
    React state and refs are records threaded through the handlers.
    Part II states and proves the properties.  Part III adds what the
    code shows besides: further properties of the helpers, of the
    student directory, of the notes, of the login form, of the scanner
    and of the pages. *)

From Stdlib Require Import Ascii String NArith.
From stdpp Require Import base numbers list strings option gmap.

Local Open Scope N_scope.

(** * Part I: the model *)

(** ** JavaScript strings and values *)

(** A string is the list of its UTF-16 code units. *)
Abbreviation str := (list N).

(** ASCII literals of the source, as code units. *)
Definition lit (s : string) : str := N_of_ascii <$> list_ascii_of_string s.

(** The values the helpers receive: a string, or one of the two absent
    values ([r.studentId] of a row without that column is [undefined]). *)
Inductive value :=
| VUndefined
| VNull
| VStr (s : str).

(** Truthiness: [undefined], [null] and the empty string are falsy. *)
Definition truthy (v : value) : bool :=
  match v with
  | VStr (_ :: _) => true
  | _ => false
  end.

(** [a || b] *)
Definition jsOr (a b : value) : value := if truthy a then a else b.

(** [String(v || '')]: the [||] replaces a falsy value by the empty string. *)
Definition stringOrEmpty (v : value) : str :=
  match jsOr v (VStr []) with
  | VStr s => s
  | _ => []
  end.

(** White space and line terminators of ECMAScript: the characters that
    [String.prototype.trim] strips and that the class [\s] matches. *)
Definition isWhiteSpace (c : N) : bool :=
  existsb (N.eqb c)
    [9; 10; 11; 12; 13; 32; 160; 5760; 8232; 8233; 8239; 8287; 12288; 65279]
  || (8192 <=? c) && (c <=? 8202).

Fixpoint trimStart (s : str) : str :=
  match s with
  | [] => []
  | c :: r => if isWhiteSpace c then trimStart r else s
  end.

Fixpoint trimEnd (s : str) : str :=
  match s with
  | [] => []
  | c :: r =>
      match trimEnd r with
      | [] => if isWhiteSpace c then [] else [c]
      | r' => c :: r'
      end
  end.

(** [s.trim()] *)
Definition trim (s : str) : str := trimEnd (trimStart s).

(** [s.replace(/\s+/g, '')]: every run of white space is deleted. *)
Definition stripWhitespace (s : str) : str :=
  filter (λ c, isWhiteSpace c = false) s.

(** [s.startsWith(p)] *)
Fixpoint startsWith (s p : str) {struct p} : bool :=
  match p, s with
  | [], _ => true
  | _ :: _, [] => false
  | a :: p', b :: s' => (a =? b) && startsWith s' p'
  end.

(** [s.includes(p)] *)
Fixpoint includes (s p : str) : bool :=
  startsWith s p ||
  match s with
  | [] => false
  | _ :: s' => includes s' p
  end.

(** [\d] *)
Definition isDigit (c : N) : bool := (48 <=? c) && (c <=? 57).

(** [\d+$] read from the current position: one digit or more, then the
    end of the input. *)
Definition digitsToEnd (s : str) : bool :=
  match s with
  | [] => false
  | _ :: _ => forallb isDigit s
  end.

(** [s.match(/^S-?\d+$/)], as a test.  The optional hyphen is tried
    first, then skipped, as the backtracking matcher does. *)
Definition matchSDigits (s : str) : bool :=
  match s with
  | c :: r =>
      (c =? 83) &&
      (startsWith r (lit "-") && digitsToEnd (drop 1 r) || digitsToEnd r)
  | [] => false
  end.

(** [s.match(/^\d+$/)], as a test. *)
Definition matchDigits (s : str) : bool := digitsToEnd s.

(** [s.replace(/^S-?/, 'S-')] *)
Definition replaceSPrefix (s : str) : str :=
  match s with
  | c :: r =>
      if c =? 83
      then lit "S-" ++ (if startsWith r (lit "-") then drop 1 r else r)
      else s
  | [] => []
  end.

(** Upper case of an ASCII code unit. *)
Definition upperAscii (c : N) : N :=
  if (97 <=? c) && (c <=? 122) then c - 32 else c.

(** [String.prototype.toUpperCase] is the engine's Unicode case mapping;
    its tables are not part of the repository.  The development is
    parametric in it.  What is fixed is what the language guarantees for
    ASCII: the mapping works code point by code point without context, so
    an ASCII code unit is mapped by [upperAscii] wherever it stands, and
    what precedes and follows it is mapped independently. *)
Class CaseMapping := {
  toUpperCase : str → str;
  toUpperCase_nil : toUpperCase [] = [];
  toUpperCase_ascii a c b :
    c < 128 →
    toUpperCase (a ++ c :: b) = toUpperCase a ++ upperAscii c :: toUpperCase b
}.

(** The case mapping that changes ASCII letters only.  It agrees with
    every [CaseMapping] on ASCII strings, so it evaluates the helpers on
    the ASCII inputs of the examples. *)
#[program] Definition asciiCase : CaseMapping :=
  {| toUpperCase := fmap upperAscii |}.
Next Obligation. done. Qed.
Next Obligation. intros. by rewrite fmap_app. Qed.

(** A case mapping that also knows two letters outside ASCII whose
    upper case is made of the letter S: the long s (383) becomes [S],
    the sharp s (223) becomes [SS]. *)
#[program] Definition longSCase : CaseMapping :=
  {| toUpperCase s :=
       s ≫= λ c, if c =? 383 then [83]
                 else if c =? 223 then [83; 83]
                 else [upperAscii c] |}.
Next Obligation. done. Qed.
Next Obligation.
  intros a c b Hc. rewrite bind_app, bind_cons.
  destruct (N.eqb_spec c 383); [lia|]. by destruct (N.eqb_spec c 223); [lia|].
Qed.

(** ** Student-ID normalizer *)

Section Normalizer.
Context {cm : CaseMapping}.

Definition normalizeStudentId (raw : value) : str :=
  let t := trim (stringOrEmpty raw) in
  match t with
  | [] => []
  | _ :: _ =>
      let cleaned := stripWhitespace t in
      if startsWith cleaned (lit "{")
         || startsWith cleaned (lit "http")
         || includes cleaned (lit "://")
      then []
      else
        let s := toUpperCase cleaned in
        if matchSDigits s || matchDigits s
        then (if startsWith s (lit "S") then replaceSPrefix s else s)
        else []
  end.

End Normalizer.

(** ** CSV parsing *)

(** [s.replace(/\r\n/g, '\n')] *)
Fixpoint replaceCRLF (s : str) : str :=
  match s with
  | [] => []
  | c :: r =>
      match r with
      | d :: r' =>
          if (c =? 13) && (d =? 10) then 10 :: replaceCRLF r'
          else c :: replaceCRLF r
      | [] => [c]
      end
  end.

(** [s.replace(/\r/g, '\n')] *)
Definition replaceCR (s : str) : str :=
  (λ c, if c =? 13 then 10 else c) <$> s.

(** [s.split(sep)] for a separator of one code unit; the empty string
    splits into one empty piece. *)
Fixpoint split (sep : N) (s : str) : list str :=
  match s with
  | [] => [[]]
  | c :: r =>
      if c =? sep then [] :: split sep r
      else match split sep r with
           | piece :: pieces => (c :: piece) :: pieces
           | [] => [[c]]
           end
  end.

(** [pieces.filter(Boolean)]: the empty strings are dropped. *)
Definition filterBoolean (pieces : list str) : list str :=
  filter (λ piece, piece ≠ []) pieces.

(** The loop of [splitCSVLine].  [prev] is [line[i - 1]], absent when
    [i === 0]; [out] and [cur] are the variables of the source. *)
Fixpoint splitCSVLoop (line : str) (prev : option N)
    (out : list str) (cur : str) (inQuotes : bool) : list str :=
  match line with
  | [] => out ++ [cur]
  | ch :: rest =>
      if (ch =? 34) && negb (bool_decide (prev = Some 92))
      then splitCSVLoop rest (Some ch) out cur (negb inQuotes)
      else if (ch =? 44) && negb inQuotes
      then splitCSVLoop rest (Some ch) (out ++ [cur]) [] inQuotes
      else splitCSVLoop rest (Some ch) out (cur ++ [ch]) inQuotes
  end.

Definition splitCSVLine (line : str) : list str :=
  splitCSVLoop line None [] [] false.

(** A row object: the own string properties of a plain object. *)
Abbreviation row := (gmap str str).

(** [obj[h] = v] on a plain object.  The key [__proto__] reaches the
    setter inherited from [Object.prototype], which ignores a string. *)
Definition setProp (h v : str) (obj : row) : row :=
  if bool_decide (h = lit "__proto__") then obj else <[h := v]> obj.

(** [r.key] for a key that [Object.prototype] does not define. *)
Definition getProp (r : row) (key : string) : value :=
  match r !! lit key with
  | Some v => VStr v
  | None => VUndefined
  end.

(** [headers.forEach((h, idx) => (obj[h] = (cols[idx] ?? '').trim()))],
    from index [idx] on. *)
Fixpoint forEachHeader (headers : list str) (idx : nat) (cols : list str)
    (obj : row) : row :=
  match headers with
  | [] => obj
  | h :: hs =>
      forEachHeader hs (S idx) cols
        (setProp h (trim (default [] (cols !! idx))) obj)
  end.

(** The lines of the text: line ends unified, then split, empty lines
    dropped. *)
Definition csvLines (text : value) : list str :=
  filterBoolean (split 10 (replaceCR (replaceCRLF (stringOrEmpty text)))).

Definition parseCSV (text : value) : list row :=
  match csvLines text with
  | [] => []
  | line0 :: lines =>
      let headers := trim <$> splitCSVLine line0 in
      (λ line, forEachHeader headers 0 (splitCSVLine line) ∅) <$> lines
  end.

(** ** HTML escaping and the print view *)

(** The character class of [escapeHtml]: ampersand, less-than,
    greater-than, double quote (34) and single quote (39). *)
Definition isHtmlSpecial (c : N) : bool :=
  existsb (N.eqb c) [38; 60; 62; 34; 39].

(** The entity table of [escapeHtml]. *)
Definition htmlEntities : list (N * str) :=
  [ (38, lit "&amp;"); (60, lit "&lt;"); (62, lit "&gt;");
    (34, lit "&quot;"); (39, lit "&#39;") ].

(** The replacement callback: the table entry of the matched character
    (a key that is not in the table would give [undefined]). *)
Definition htmlEntity (m : N) : str :=
  match list_find (λ e, e.1 = m) htmlEntities with
  | Some (_, e) => e.2
  | None => lit "undefined"
  end.

Definition escapeHtml (s : value) : str :=
  stringOrEmpty s ≫= λ c, if isHtmlSpecial c then htmlEntity c else [c].

Definition dq : str := [34].
Definition nl : str := [10].
Definition indent (n : nat) : str := replicate n 32.

(** The template literal of [printQR], cut at its three substitutions. *)
Definition printHead : str :=
  nl ++ indent 6 ++ lit "<html>" ++ nl
  ++ indent 8 ++ lit "<head><title>Print QR</title></head>" ++ nl
  ++ indent 8 ++ lit "<body style=" ++ dq
  ++ lit "font-family:Arial; text-align:center; padding:30px;" ++ dq
  ++ lit ">" ++ nl
  ++ indent 10 ++ lit "<h2 style=" ++ dq ++ lit "margin:0 0 8px;" ++ dq
  ++ lit ">".

Definition printAfterName : str :=
  lit "</h2>" ++ nl
  ++ indent 10 ++ lit "<div style=" ++ dq
  ++ lit "margin-bottom:10px; font-weight:bold;" ++ dq
  ++ lit ">StudentID: ".

Definition printAfterId : str :=
  lit "</div>" ++ nl ++ indent 10 ++ lit "<img src=" ++ dq.

Definition printTail : str :=
  dq ++ lit " style=" ++ dq ++ lit "width:260px; height:260px;" ++ dq
  ++ lit " />" ++ nl
  ++ indent 10 ++ lit "<div style=" ++ dq
  ++ lit "margin-top:14px; color:#555;" ++ dq ++ lit ">Student360</div>" ++ nl
  ++ indent 10
  ++ lit "<script>window.onload = () => window.print();</script>" ++ nl
  ++ indent 8 ++ lit "</body>" ++ nl
  ++ indent 6 ++ lit "</html>" ++ nl
  ++ indent 4.

(** The student a QR code is shown for: [{studentId, name}], copied from
    a listed document, whose fields may be missing. *)
Module QrFor.
Record t := { studentId : value; name : value }.
End QrFor.

(** [printQR]: the HTML written into the popup, or nothing when there
    is no code to print or the popup was blocked ([popup = false]). *)
Definition printQR (qrDataUrl : str) (qrFor : option QrFor.t)
    (popup : bool) : option str :=
  match qrDataUrl, qrFor with
  | [], _ | _, None => None
  | _ :: _, Some q =>
      if popup
      then Some (printHead
                 ++ escapeHtml (jsOr (QrFor.name q) (VStr []))
                 ++ printAfterName
                 ++ escapeHtml (QrFor.studentId q)
                 ++ printAfterId ++ qrDataUrl ++ printTail)
      else None
  end.

(** ** Sessions, documents and the awaited calls *)

Definition SCHOOL_ID : str := lit "demo-school".
Definition SCHOOL_NAME : str := lit "Demo School".

(** The names of the properties that every plain object inherits from
    [Object.prototype].  Their values are functions, and for
    [__proto__] the prototype itself: no strings, no lists, and none of
    them falsy. *)
Definition OBJECT_PROTOTYPE : list str :=
  [ lit "constructor"; lit "hasOwnProperty"; lit "isPrototypeOf";
    lit "propertyIsEnumerable"; lit "toLocaleString"; lit "toString";
    lit "valueOf"; lit "__proto__"; lit "__defineGetter__";
    lit "__defineSetter__"; lit "__lookupGetter__"; lit "__lookupSetter__" ].

(** What a session holds as the name of its user: a text, or, for a
    role that names an inherited property, the value of that property,
    which is no text. *)
Inductive nameValue :=
| NameText (text : str)
| NameInherited (property : str).

#[warning="-uniform-inheritance"] Coercion NameText : list >-> nameValue.

Module Session.
Record t := {
  uid : str;
  role : str;
  name : nameValue;
  identifier : str;
  schoolId : str;
  schoolName : str
}.
End Session.

Module CreatedBy.
Record t := {
  role : str;
  name : nameValue;
  identifier : str;
  via : option str
}.
End CreatedBy.

(** A document of [schools/{schoolId}/students], as this client
    writes it; [createdAt] is the server's time stamp. *)
Module Student.
Record t := {
  schoolId : str;
  studentId : str;
  name : str;
  grade : str;
  section : str;
  createdAt : N;
  createdBy : CreatedBy.t
}.
End Student.

(** The student collections: the document at
    [schools/{schoolId}/students/{studentId}], if there is one. *)
Abbreviation store := (gmap (str * str) Student.t).

(** [studentDocRef(studentId)] *)
Definition studentDocRef (session : Session.t) (studentId : str) : str * str :=
  (Session.schoolId session, studentId).

(** An awaited promise either rejects or is fulfilled with a value. *)
Inductive outcome (A : Type) :=
| Rejected
| Fulfilled (a : A).
Arguments Rejected {A}.
Arguments Fulfilled {A} a.

(** Which calls to the document store fail during one handler. *)
Record faults := {
  getDocFails : bool;
  setDocFails : bool;
  commitFails : bool;
  getDocsFails : bool
}.

Definition getDoc (f : faults) (db : store) (ref : str * str)
    : outcome (option Student.t) :=
  if getDocFails f then Rejected else Fulfilled (db !! ref).

(** [setDoc(ref, data)] without merge: the document is replaced. *)
Definition setDoc (f : faults) (db : store) (ref : str * str)
    (data : Student.t) : outcome store :=
  if setDocFails f then Rejected else Fulfilled (<[ref := data]> db).

(** [batch.commit()]: the writes of the batch are applied in order, all
    or none. *)
Definition commit (f : faults) (batch : list ((str * str) * Student.t))
    (db : store) : outcome store :=
  if commitFails f then Rejected
  else Fulfilled (foldl (λ d w, <[w.1 := w.2]> d) db batch).

(** ** Student directory and bulk importer *)

(** The texts shown by [setMsg], named by what they say (the texts
    themselves are Arabic; two of them carry the identifier or the
    number of imported students). *)
Inductive message :=
| MsgNone                       (* the empty string *)
| MsgCreateNotAdmin             (* adding students is for the admin only *)
| MsgBadStudentId               (* write a valid StudentID *)
| MsgNoName                     (* write the name of the student *)
| MsgAlreadyExists (sid : str)  (* warning: this student already exists *)
| MsgAdded (sid : str)          (* the student was added *)
| MsgCreateFailed               (* an error occurred while adding *)
| MsgImportNotAdmin             (* importing is for the admin only *)
| MsgNoValidRows                (* the CSV file holds no valid data *)
| MsgImported (count : nat)     (* count students were imported *)
| MsgImportFailed               (* the CSV import failed *)
| MsgLoadLatestFailed.          (* the list of students could not be loaded *)

(** The state of [AdminStudents] that the two handlers touch (the list
    of the latest students and the QR dialog are left out). *)
Module Admin.
Record t := {
  studentId : str;
  fullName : str;
  grade : str;
  section : str;
  msg : message;
  saving : bool;
  loadingLatest : bool
}.
End Admin.

Definition setMsg (m : message) (st : Admin.t) : Admin.t :=
  {| Admin.studentId := Admin.studentId st; Admin.fullName := Admin.fullName st;
     Admin.grade := Admin.grade st; Admin.section := Admin.section st;
     Admin.msg := m; Admin.saving := Admin.saving st;
     Admin.loadingLatest := Admin.loadingLatest st |}.

Definition setSaving (b : bool) (st : Admin.t) : Admin.t :=
  {| Admin.studentId := Admin.studentId st; Admin.fullName := Admin.fullName st;
     Admin.grade := Admin.grade st; Admin.section := Admin.section st;
     Admin.msg := Admin.msg st; Admin.saving := b;
     Admin.loadingLatest := Admin.loadingLatest st |}.

Definition setLoadingLatest (b : bool) (st : Admin.t) : Admin.t :=
  {| Admin.studentId := Admin.studentId st; Admin.fullName := Admin.fullName st;
     Admin.grade := Admin.grade st; Admin.section := Admin.section st;
     Admin.msg := Admin.msg st; Admin.saving := Admin.saving st;
     Admin.loadingLatest := b |}.

(** [setStudentId(''); setFullName('')] *)
Definition clearForm (st : Admin.t) : Admin.t :=
  {| Admin.studentId := []; Admin.fullName := [];
     Admin.grade := Admin.grade st; Admin.section := Admin.section st;
     Admin.msg := Admin.msg st; Admin.saving := Admin.saving st;
     Admin.loadingLatest := Admin.loadingLatest st |}.

(** [loadLatest], as far as the message goes: it clears the message,
    and reports a failed query. *)
Definition loadLatest (f : faults) (st : Admin.t) : Admin.t :=
  let st := setMsg MsgNone (setLoadingLatest true st) in
  let st := if getDocsFails f then setMsg MsgLoadLatestFailed st else st in
  setLoadingLatest false st.

Definition defaultGrade : str :=
  [1575; 1604; 1589; 1601; 32; 1575; 1604; 1571; 1608; 1604; 32;
   1575; 1576; 1578; 1583; 1575; 1574; 1610].
Definition defaultSection : str := [1571].

(** A record of the list [cleaned] of [importCSV]. *)
Module Cleaned.
Record t := { studentId : str; name : str; grade : str; section : str }.
End Cleaned.

(** The string a chain [a || b || 'text'] evaluates to. *)
Definition strOf (v : value) : str :=
  match v with
  | VStr s => s
  | _ => []
  end.

(** [r.studentId || r.StudentID || r.id || r.ID] *)
Definition rawStudentId (r : row) : value :=
  jsOr (jsOr (jsOr (getProp r "studentId") (getProp r "StudentID"))
             (getProp r "id"))
       (getProp r "ID").

Section Directory.
Context {cm : CaseMapping}.

Definition createStudent (f : faults) (now : N) (session : Session.t)
    (st : Admin.t) (db : store) : Admin.t * store :=
  let st := setMsg MsgNone st in
  if negb (bool_decide (Session.role session = lit "admin"))
  then (setMsg MsgCreateNotAdmin st, db)
  else
    let sid := normalizeStudentId (VStr (Admin.studentId st)) in
    match sid, trim (Admin.fullName st) with
    | [], _ => (setMsg MsgBadStudentId st, db)
    | _ :: _, [] => (setMsg MsgNoName st, db)
    | _ :: _, _ :: _ =>
        let st := setSaving true st in
        let ref := studentDocRef session sid in
        let result :=
          match getDoc f db ref with
          | Rejected => (setMsg MsgCreateFailed st, db)
          | Fulfilled (Some _) => (setMsg (MsgAlreadyExists sid) st, db)
          | Fulfilled None =>
              let data :=
                {| Student.schoolId := Session.schoolId session;
                   Student.studentId := sid;
                   Student.name := trim (Admin.fullName st);
                   Student.grade := Admin.grade st;
                   Student.section := Admin.section st;
                   Student.createdAt := now;
                   Student.createdBy :=
                     {| CreatedBy.role := Session.role session;
                        CreatedBy.name := Session.name session;
                        CreatedBy.identifier := Session.identifier session;
                        CreatedBy.via := None |} |} in
              match setDoc f db ref data with
              | Rejected => (setMsg MsgCreateFailed st, db)
              | Fulfilled db' =>
                  (loadLatest f (clearForm (setMsg (MsgAdded sid) st)), db')
              end
          end in
        (setSaving false result.1, result.2)
    end.

(** The callback of [rows.map] in [importCSV]. *)
Definition cleanRow (r : row) : Cleaned.t :=
  {| Cleaned.studentId := normalizeStudentId (rawStudentId r);
     Cleaned.name :=
       trim (strOf (jsOr (jsOr (getProp r "name") (getProp r "Name"))
                         (VStr [])));
     Cleaned.grade :=
       trim (strOf (jsOr (jsOr (getProp r "grade") (getProp r "Grade"))
                         (VStr defaultGrade)));
     Cleaned.section :=
       trim (strOf (jsOr (jsOr (getProp r "section") (getProp r "Section"))
                         (VStr defaultSection))) |}.

(** The list [cleaned]: the mapped rows that have an identifier and a
    name. *)
Definition cleanRows (rows : list row) : list Cleaned.t :=
  filter (λ x, Cleaned.studentId x ≠ [] ∧ Cleaned.name x ≠ [])
         (cleanRow <$> rows).

(** The document that [batch.set] writes for a cleaned record. *)
Definition importedDoc (now : N) (session : Session.t) (s : Cleaned.t)
    : Student.t :=
  {| Student.schoolId := Session.schoolId session;
     Student.studentId := Cleaned.studentId s;
     Student.name := Cleaned.name s;
     Student.grade := Cleaned.grade s;
     Student.section := Cleaned.section s;
     Student.createdAt := now;
     Student.createdBy :=
       {| CreatedBy.role := Session.role session;
          CreatedBy.name := Session.name session;
          CreatedBy.identifier := Session.identifier session;
          CreatedBy.via := Some (lit "csv") |} |}.

(** The writes queued by [cleaned.slice(0, 200).forEach(...)]. *)
Definition importBatch (now : N) (session : Session.t)
    (cleaned : list Cleaned.t) : list ((str * str) * Student.t) :=
  (λ s, (studentDocRef session (Cleaned.studentId s),
         importedDoc now session s)) <$> take 200 cleaned.

(** [importCSV(file)].  [file] is absent when no file was chosen;
    otherwise it carries the outcome of [file.text()]. *)
Definition importCSV (f : faults) (now : N) (session : Session.t)
    (file : option (outcome str)) (st : Admin.t) (db : store)
    : Admin.t * store :=
  let st := setMsg MsgNone st in
  match file with
  | None => (st, db)
  | Some content =>
      if negb (bool_decide (Session.role session = lit "admin"))
      then (setMsg MsgImportNotAdmin st, db)
      else
        match content with
        | Rejected => (setMsg MsgImportFailed st, db)
        | Fulfilled text =>
            let cleaned := cleanRows (parseCSV (VStr text)) in
            match cleaned with
            | [] => (setMsg MsgNoValidRows st, db)
            | _ :: _ =>
                match commit f (importBatch now session cleaned) db with
                | Rejected => (setMsg MsgImportFailed st, db)
                | Fulfilled db' =>
                    (loadLatest f
                       (setMsg (MsgImported (length cleaned `min` 200)) st),
                     db')
                end
            end
        end
  end.

End Directory.

(** ** Session and role resolver *)

(** The authenticated identity; [email] is a string or [null]. *)
Module FbUser.
Record t := { uid : str; email : value }.
End FbUser.

(** What [snap.data()] holds of the role document [/users/{uid}]. *)
Module RoleDoc.
Record t := { role : value; email : value }.
End RoleDoc.

(** The own properties of [ROLE_DEFAULT_NAMES]. *)
Definition ROLE_DEFAULT_NAMES : list (str * str) :=
  [ (lit "admin",
     [1571; 47; 32; 1605; 1583; 1610; 1585; 32;
      1575; 1604; 1605; 1583; 1585; 1587; 1577]);
    (lit "teacher", [1571; 47; 32; 1571; 1581; 1605; 1583]);
    (lit "counselor",
     [1571; 47; 32; 1578; 1608; 1580; 1610; 1607; 32;
      1591; 1604; 1575; 1576; 1610]);
    (lit "parent", [1608; 1604; 1610; 32; 1571; 1605; 1585]) ].

(** The display name of a session without a known role. *)
Definition defaultUserName : str := [1605; 1587; 1578; 1582; 1583; 1605].

(** [ROLE_DEFAULT_NAMES[role] || defaultUserName]: the own property of
    the table, or the inherited value, which is truthy, or the
    default. *)
Definition roleDefaultName (role : str) : nameValue :=
  match list_find (λ e, e.1 = role) ROLE_DEFAULT_NAMES with
  | Some (_, e) => NameText (strOf (jsOr (VStr e.2) (VStr defaultUserName)))
  | None =>
      if bool_decide (role ∈ OBJECT_PROTOTYPE) then NameInherited role
      else NameText defaultUserName
  end.

(** The session set when the role document is missing, and again in
    the [catch] clause. *)
Definition unknownSession (u : FbUser.t) : Session.t :=
  {| Session.uid := FbUser.uid u;
     Session.role := lit "unknown";
     Session.name := defaultUserName;
     Session.identifier := strOf (jsOr (FbUser.email u) (VStr (FbUser.uid u)));
     Session.schoolId := SCHOOL_ID;
     Session.schoolName := SCHOOL_NAME |}.

(** The [try] block of the role effect: the error of a rejected fetch,
    or the session it sets.  [snap] is the outcome of [getDoc(roleRef)],
    with the data of the document if it exists. *)
Definition resolveTry (u : FbUser.t) (snap : outcome (option RoleDoc.t))
    : unit + Session.t :=
  match snap with
  | Rejected => inl ()
  | Fulfilled None => inr (unknownSession u)
  | Fulfilled (Some data) =>
      let role := strOf (jsOr (RoleDoc.role data) (VStr (lit "unknown"))) in
      let email :=
        strOf (jsOr (jsOr (RoleDoc.email data) (FbUser.email u))
                    (VStr (FbUser.uid u))) in
      inr {| Session.uid := FbUser.uid u;
             Session.role := role;
             Session.name := roleDefaultName role;
             Session.identifier := email;
             Session.schoolId := SCHOOL_ID;
             Session.schoolName := SCHOOL_NAME |}
  end.

(** [try { ... } catch (e) { ... }]: the session that gets set. *)
Definition resolveSession (u : FbUser.t) (snap : outcome (option RoleDoc.t))
    : Session.t :=
  match resolveTry u snap with
  | inr session => session
  | inl _ => unknownSession u
  end.

(** The effect that loads the session: nothing before the first auth
    notification, [null] when logged out, the resolved session
    otherwise. *)
Definition roleEffect (fbReady : bool) (fbUser : option FbUser.t)
    (snap : outcome (option RoleDoc.t)) (session : option Session.t)
    : option Session.t :=
  if fbReady then
    match fbUser with
    | None => None
    | Some u => Some (resolveSession u snap)
    end
  else session.

(** ** Pages, navigation and the scan-session counter *)

Inductive page := PDashboard | PScanner | PStudent | PAdminStudents.

(** The texts of [studentLoadError]. *)
Inductive loadError :=
| NoError
| InvalidQR
| StudentNotFound (sid : str)
| FetchFailed.

Module App.
Record t := {
  page : page;
  student : option Student.t;
  studentLoadError : loadError;
  scanSession : N              (* scanSessionRef.current *)
}.
End App.

(** [n += 1] on a JavaScript number that holds a natural number: exact
    below 2^53, where the sum rounds back to 2^53. *)
Definition jsIncrement (n : N) : N :=
  if n <? 2 ^ 53 then n + 1 else n.

(** [goDashboard], [goScanner], [goAdminStudents] and the [finally]
    clause of [signOut]: advance the counter, drop the student, and show
    the page. *)
Definition navigate (target : page) (app : App.t) : App.t :=
  {| App.page := target;
     App.student := None;
     App.studentLoadError := NoError;
     App.scanSession := jsIncrement (App.scanSession app) |}.

Definition goDashboard : App.t → App.t := navigate PDashboard.
Definition goScanner : App.t → App.t := navigate PScanner.
Definition goAdminStudents : App.t → App.t := navigate PAdminStudents.

(** [setStudentLoadError(error)] *)
Definition setStudentLoadError (error : loadError) (app : App.t) : App.t :=
  {| App.page := App.page app;
     App.student := App.student app;
     App.studentLoadError := error;
     App.scanSession := App.scanSession app |}.

(** The three state updates that end every live branch of
    [openStudentById]. *)
Definition showStudent (student : option Student.t) (error : loadError)
    (app : App.t) : App.t :=
  {| App.page := PStudent;
     App.student := student;
     App.studentLoadError := error;
     App.scanSession := App.scanSession app |}.

Section Lookup.
Context {cm : CaseMapping}.

(** [openStudentById(studentIdRaw, currentScanSessionId)], run without
    interruption, nothing else happening while it awaits the fetch: the
    new state and the references fetched with [getDoc]. *)
Definition openStudentById (f : faults) (db : store) (session : Session.t)
    (studentIdRaw : value) (currentScanSessionId : N) (app : App.t)
    : App.t * list (str * str) :=
  if negb (currentScanSessionId =? App.scanSession app) then (app, [])
  else
    match normalizeStudentId studentIdRaw with
    | [] => (showStudent None InvalidQR app, [])
    | (_ :: _) as sid =>
        let ref := studentDocRef session sid in
        match getDoc f db ref with
        | Fulfilled (Some data) => (showStudent (Some data) NoError app, [ref])
        | Fulfilled None => (showStudent None (StudentNotFound sid) app, [ref])
        | Rejected => (showStudent None FetchFailed app, [ref])
        end
    end.

(** [openStudentById] up to its [await]: the state when it returns or
    suspends, and the identifier whose document it has asked for, if
    it suspends. *)
Definition openStudentByIdStart (studentIdRaw : value)
    (currentScanSessionId : N) (app : App.t) : App.t * option str :=
  if negb (currentScanSessionId =? App.scanSession app) then (app, None)
  else
    match normalizeStudentId studentIdRaw with
    | [] => (showStudent None InvalidQR app, None)
    | (_ :: _) as sid => (setStudentLoadError NoError app, Some sid)
    end.

End Lookup.

(** [openStudentById] from its [await] on, [snap] being what the fetch
    of the document of [sid] has given.  The token is not compared
    again, and the error is left as it is when the student is found. *)
Definition openStudentByIdResume (sid : str)
    (snap : outcome (option Student.t)) (app : App.t) : App.t :=
  match snap with
  | Fulfilled (Some data) =>
      {| App.page := PStudent;
         App.student := Some data;
         App.studentLoadError := App.studentLoadError app;
         App.scanSession := App.scanSession app |}
  | Fulfilled None => showStudent None (StudentNotFound sid) app
  | Rejected => showStudent None FetchFailed app
  end.

(** ** QR scanner *)

Inductive scanStatus := Idle | Starting | Scanning | Scanned | CameraError.

(** The refs and state of one [QRScanner] instance.  [pendingTimeout]
    is the timer referenced by [pendingTimeoutRef], with the text that
    its callback will hand over; [reason] is the message in [error]. *)
Module Scanner.
Record t := {
  didScan : bool;
  pendingTimeout : option str;
  status : scanStatus;
  reason : str
}.
End Scanner.

(** What happens to the component. *)
Inductive scanEvent :=
| StartCamera
    (* [startCameraAndScan], up to its [await] *)
| CameraArmed
    (* the awaited [decodeFromConstraints] is fulfilled *)
| CameraFailed (message : str)
    (* the [catch] clause, with the humanized camera error *)
| Decode (result : option str)
    (* the decode callback, with the text of the result if any *)
| TimerFires
    (* the 120 ms timer elapses *)
| StopButton
| BackButton
| Unmount.

(** The calls that leave the component through its props. *)
Inductive scanCall :=
| OnScan (text : str) (sessionId : N)
| OnGoDashboard.

(** [clearPending] (and with it [stopScanner], whose [reader.reset] has
    no other effect on this state). *)
Definition clearPending (sc : Scanner.t) : Scanner.t :=
  {| Scanner.didScan := Scanner.didScan sc;
     Scanner.pendingTimeout := None;
     Scanner.status := Scanner.status sc;
     Scanner.reason := Scanner.reason sc |}.

Definition stopScanner : Scanner.t → Scanner.t := clearPending.

Definition scanStep (sessionId : N) (e : scanEvent) (sc : Scanner.t)
    : Scanner.t * list scanCall :=
  match e with
  | StartCamera =>
      ({| Scanner.didScan := false;
          Scanner.pendingTimeout := Scanner.pendingTimeout sc;
          Scanner.status := Starting;
          Scanner.reason := [] |}, [])
  | CameraArmed =>
      ({| Scanner.didScan := Scanner.didScan sc;
          Scanner.pendingTimeout := Scanner.pendingTimeout sc;
          Scanner.status := Scanning;
          Scanner.reason := Scanner.reason sc |}, [])
  | CameraFailed message =>
      ({| Scanner.didScan := Scanner.didScan sc;
          Scanner.pendingTimeout := Scanner.pendingTimeout sc;
          Scanner.status := CameraError;
          Scanner.reason := message |}, [])
  | Decode None => (sc, [])
  | Decode (Some text) =>
      if Scanner.didScan sc then (sc, [])
      else
        let sc := stopScanner
                    {| Scanner.didScan := true;
                       Scanner.pendingTimeout := Scanner.pendingTimeout sc;
                       Scanner.status := Scanned;
                       Scanner.reason := Scanner.reason sc |} in
        let sc := clearPending sc in
        ({| Scanner.didScan := Scanner.didScan sc;
            Scanner.pendingTimeout := Some text;
            Scanner.status := Scanner.status sc;
            Scanner.reason := Scanner.reason sc |}, [])
  | TimerFires =>
      match Scanner.pendingTimeout sc with
      | Some text => (clearPending sc, [OnScan text sessionId])
      | None => (sc, [])
      end
  | StopButton =>
      let sc := stopScanner sc in
      ({| Scanner.didScan := false;
          Scanner.pendingTimeout := Scanner.pendingTimeout sc;
          Scanner.status := Idle;
          Scanner.reason := [] |}, [])
  | BackButton => (stopScanner sc, [OnGoDashboard])
  | Unmount => (stopScanner sc, [])
  end.

(** A run of the component: the events in order, the calls collected. *)
Fixpoint scanRun (sessionId : N) (events : list scanEvent) (sc : Scanner.t)
    : Scanner.t * list scanCall :=
  match events with
  | [] => (sc, [])
  | e :: rest =>
      let r1 := scanStep sessionId e sc in
      let r2 := scanRun sessionId rest r1.1 in
      (r2.1, r1.2 ++ r2.2)
  end.

(** The component as mounted. *)
Definition scannerMounted : Scanner.t :=
  {| Scanner.didScan := false;
     Scanner.pendingTimeout := None;
     Scanner.status := Idle;
     Scanner.reason := [] |}.

(** The events of one camera session after its start: the outcome of
    arming the decoder, decode callbacks, the timer, and what only stops
    the scanner.  A new start and the stop button clear [didScan] and so
    begin another session. *)
Definition inSession (e : scanEvent) : bool :=
  match e with
  | CameraArmed | CameraFailed _ | Decode _ | TimerFires
  | BackButton | Unmount => true
  | StartCamera | StopButton => false
  end.

(** The [OnScan] calls among the calls of a run. *)
Definition onScanCalls (calls : list scanCall) : list (str * N) :=
  calls ≫= λ c, match c with OnScan text sid => [(text, sid)] | _ => [] end.

(** ** The scanner page *)

Section ScannerPage.
Context {cm : CaseMapping}.

(** The props that [App] passes to [QRScanner]: [onScan] is
    [openStudentById] and [onGoDashboard] is [goDashboard]. *)
Definition handleScanCall (f : faults) (db : store) (session : Session.t)
    (c : scanCall) (app : App.t) : App.t * list (str * str) :=
  match c with
  | OnScan text sessionId =>
      openStudentById f db session (VStr text) sessionId app
  | OnGoDashboard => (goDashboard app, [])
  end.

(** The calls of a run handled in order, each to its end before the
    next; the documents fetched. *)
Fixpoint handleScanCalls (f : faults) (db : store) (session : Session.t)
    (calls : list scanCall) (app : App.t) : App.t * list (str * str) :=
  match calls with
  | [] => (app, [])
  | c :: rest =>
      let r1 := handleScanCall f db session c app in
      let r2 := handleScanCalls f db session rest r1.1 in
      (r2.1, r1.2 ++ r2.2)
  end.

End ScannerPage.

(** ** Login *)

(** The texts returned by [mapAuthError], by category. *)
Inductive authMessage :=
| AuthInvalidCredential
| AuthWrongPassword
| AuthUserNotFound
| AuthInvalidEmail
| AuthTooManyRequests
| AuthAdminRestricted
| AuthUnknown.

(** [mapAuthError(err)], from [err?.code]. *)
Definition mapAuthError (errCode : value) : authMessage :=
  let code := stringOrEmpty errCode in
  if includes code (lit "auth/invalid-credential") then AuthInvalidCredential
  else if includes code (lit "auth/wrong-password") then AuthWrongPassword
  else if includes code (lit "auth/user-not-found") then AuthUserNotFound
  else if includes code (lit "auth/invalid-email") then AuthInvalidEmail
  else if includes code (lit "auth/too-many-requests") then AuthTooManyRequests
  else if includes code (lit "auth/admin-restricted-operation")
  then AuthAdminRestricted
  else AuthUnknown.

(** The texts of [error] in [Login]. *)
Inductive loginError :=
| NoLoginError                  (* the empty string *)
| NeedEmail                     (* please write the e-mail address *)
| NeedPassword                  (* please write the password *)
| AuthFailed (m : authMessage).

Module Login.
Record t := {
  identifier : str;
  password : str;
  busy : bool;
  error : loginError
}.
End Login.

(** The outcome of [signInWithEmailAndPassword]: fulfilled, or rejected
    with an error whose [code] is given. *)
Inductive signInResult :=
| SignedIn
| SignInRejected (errCode : value).

(** [handleSubmit]: the new state, and the calls made to
    [signInWithEmailAndPassword], each with its e-mail address and
    password. *)
Definition handleSubmit (result : signInResult) (st : Login.t)
    : Login.t * list (str * str) :=
  let email := trim (Login.identifier st) in
  match email, Login.password st with
  | [], _ =>
      ({| Login.identifier := Login.identifier st;
          Login.password := Login.password st;
          Login.busy := Login.busy st; Login.error := NeedEmail |}, [])
  | _ :: _, [] =>
      ({| Login.identifier := Login.identifier st;
          Login.password := Login.password st;
          Login.busy := Login.busy st; Login.error := NeedPassword |}, [])
  | _ :: _, _ :: _ =>
      ({| Login.identifier := Login.identifier st;
          Login.password := Login.password st;
          Login.busy := false;
          Login.error :=
            match result with
            | SignedIn => NoLoginError
            | SignInRejected errCode => AuthFailed (mapAuthError errCode)
            end |},
       [(email, Login.password st)])
  end.

(** ** Notes of a student *)

Inductive noteType := Positive | Negative.

(** A document of [schools/{schoolId}/students/{studentId}/notes]. *)
Module Note.
Record t := {
  schoolId : str;
  studentId : str;
  studentName : str;
  type : noteType;
  location : str;
  category : str;
  comment : str;
  createdAt : N;
  createdBy : CreatedBy.t
}.
End Note.

(** The notes collections: the notes under
    [schools/{schoolId}/students/{studentId}], oldest first; [addDoc]
    adds a document under a new identifier. *)
Abbreviation notesStore := (gmap (str * str) (list Note.t)).

(** [notesColRef(studentId)] *)
Definition notesColRef (session : Session.t) (studentId : str) : str * str :=
  (Session.schoolId session, studentId).

Definition notesOf (db : notesStore) (ref : str * str) : list Note.t :=
  default [] (db !! ref).

(** [addDoc(ref, data)] *)
Definition addDoc (fails : bool) (db : notesStore) (ref : str * str)
    (data : Note.t) : outcome notesStore :=
  if fails then Rejected else Fulfilled (<[ref := notesOf db ref ++ [data]]> db).

(** The texts of [msg] in [StudentPage]. *)
Inductive noteMessage :=
| NoNoteMessage                 (* the empty string *)
| NoteNeedsStudent              (* no note without a valid student *)
| NoteNeedsComment              (* write the note *)
| NoteSaved
| NoteSaveFailed.

Module Notes.
Record t := {
  noteType : noteType;
  location : str;
  category : str;
  comment : str;
  saving : bool;
  msg : noteMessage;
  notes : list Note.t;
  loadingNotes : bool
}.
End Notes.

(** [loadNotes(studentId)]: [listed] is the outcome of the query for the
    most recent notes; a failure is logged and the list is kept. *)
Definition loadNotes (listed : outcome (list Note.t)) (st : Notes.t) : Notes.t :=
  {| Notes.noteType := Notes.noteType st; Notes.location := Notes.location st;
     Notes.category := Notes.category st; Notes.comment := Notes.comment st;
     Notes.saving := Notes.saving st; Notes.msg := Notes.msg st;
     Notes.notes :=
       match listed with
       | Fulfilled notes => notes
       | Rejected => Notes.notes st
       end;
     Notes.loadingNotes := false |}.

Definition setNoteMsg (m : noteMessage) (st : Notes.t) : Notes.t :=
  {| Notes.noteType := Notes.noteType st; Notes.location := Notes.location st;
     Notes.category := Notes.category st; Notes.comment := Notes.comment st;
     Notes.saving := Notes.saving st; Notes.msg := m;
     Notes.notes := Notes.notes st;
     Notes.loadingNotes := Notes.loadingNotes st |}.

Definition setNoteSaving (b : bool) (st : Notes.t) : Notes.t :=
  {| Notes.noteType := Notes.noteType st; Notes.location := Notes.location st;
     Notes.category := Notes.category st; Notes.comment := Notes.comment st;
     Notes.saving := b; Notes.msg := Notes.msg st;
     Notes.notes := Notes.notes st;
     Notes.loadingNotes := Notes.loadingNotes st |}.

Definition setComment (c : str) (st : Notes.t) : Notes.t :=
  {| Notes.noteType := Notes.noteType st; Notes.location := Notes.location st;
     Notes.category := Notes.category st; Notes.comment := c;
     Notes.saving := Notes.saving st; Notes.msg := Notes.msg st;
     Notes.notes := Notes.notes st;
     Notes.loadingNotes := Notes.loadingNotes st |}.

(** [saveNote].  [student] is the prop of the page; [addFails] tells
    whether [addDoc] is rejected, [listed] is the outcome of the query
    that reloads the notes. *)
Definition saveNote (addFails : bool) (listed : outcome (list Note.t))
    (now : N) (session : Session.t) (student : option Student.t)
    (st : Notes.t) (db : notesStore) : Notes.t * notesStore :=
  let st := setNoteMsg NoNoteMessage st in
  match student with
  | None => (setNoteMsg NoteNeedsStudent st, db)
  | Some student =>
      match Student.studentId student, trim (Notes.comment st) with
      | [], _ => (setNoteMsg NoteNeedsStudent st, db)
      | _ :: _, [] => (setNoteMsg NoteNeedsComment st, db)
      | _ :: _, _ :: _ =>
          let st := setNoteSaving true st in
          let data :=
            {| Note.schoolId := Session.schoolId session;
               Note.studentId := Student.studentId student;
               Note.studentName := Student.name student;
               Note.type := Notes.noteType st;
               Note.location := Notes.location st;
               Note.category := Notes.category st;
               Note.comment := trim (Notes.comment st);
               Note.createdAt := now;
               Note.createdBy :=
                 {| CreatedBy.role := Session.role session;
                    CreatedBy.name := Session.name session;
                    CreatedBy.identifier := Session.identifier session;
                    CreatedBy.via := None |} |} in
          let result :=
            match addDoc addFails db
                    (notesColRef session (Student.studentId student)) data with
            | Rejected => (setNoteMsg NoteSaveFailed st, db)
            | Fulfilled db' =>
                (loadNotes listed (setNoteMsg NoteSaved (setComment [] st)),
                 db')
            end in
          (setNoteSaving false result.1, result.2)
      end
  end.

(** [canWriteNotes] *)
Definition canWriteNotes (session : Session.t) : bool :=
  bool_decide (Session.role session = lit "teacher")
  || bool_decide (Session.role session = lit "counselor")
  || bool_decide (Session.role session = lit "admin").

(** A click on the save button.  The button is on the page only when a
    student is shown and the role can write notes, and it is disabled
    while a note is being saved. *)
Definition clickSaveNote (addFails : bool) (listed : outcome (list Note.t))
    (now : N) (session : Session.t) (student : option Student.t)
    (st : Notes.t) (db : notesStore) : Notes.t * notesStore :=
  match student with
  | Some _ =>
      if canWriteNotes session && negb (Notes.saving st)
      then saveNote addFails listed now session student st db
      else (st, db)
  | None => (st, db)
  end.

(** ** Dashboard and the buttons of the pages *)

(** The two handlers that a card can carry. *)
Inductive cardAction := OnAdminStudents | OnScanQR.

(** A card of the dashboard, with its key and its action (its texts are
    left out). *)
Module Card.
Record t := { key : str; action : option cardAction }.
End Card.

(** The own properties of [ROLE_CARDS]. *)
Definition ROLE_CARDS : list (str * list Card.t) :=
  [ (lit "teacher", [ {| Card.key := lit "scan"; Card.action := None |} ]);
    (lit "admin", []);
    (lit "counselor", [ {| Card.key := lit "scan"; Card.action := None |} ]);
    (lit "parent", [ {| Card.key := lit "children"; Card.action := None |} ]) ].

(** The list [cards] of [Dashboard], from [ROLE_CARDS[session.role] ??
    []]; nothing when the role names an inherited property: what is
    found then is no list, [cards.map] throws, and the dashboard is not
    rendered. *)
Definition dashboardCards (role : str) : option (list Card.t) :=
  let base :=
    match list_find (λ e, e.1 = role) ROLE_CARDS with
    | Some (_, e) => Some e.2
    | None => if bool_decide (role ∈ OBJECT_PROTOTYPE) then None else Some []
    end in
  if bool_decide (role = lit "admin")
  then
    (λ base,
       [ {| Card.key := lit "students"; Card.action := Some OnAdminStudents |};
         {| Card.key := lit "scan"; Card.action := Some OnScanQR |} ] ++ base)
    <$> base
  else base.

(** What happens to the pages: what the user does on the page that is
    shown, what the scanner calls, and the fetch of a student document
    settling. *)
Inductive uiEvent :=
| ClickCard (index : nat)
    (* a card of the dashboard *)
| ClickSignOut
    (* the sign-out button of the dashboard *)
| ScannerCalls (c : scanCall)
    (* a call of the scanner through its props *)
| ClickStudentBack
| ClickRescan
    (* the two buttons of the student page *)
| ClickAdminBack
| ClickAdminScanner
    (* the two buttons of the students administration *)
| FetchSettles (index : nat).
    (* the fetch that a call of [openStudentById] awaits settles *)

(** The state of [App] together with the calls of [openStudentById]
    that are suspended at their [await], each with the identifier of
    the document it has asked for. *)
Module Ui.
Record t := { app : App.t; awaiting : list str }.
End Ui.

Section Pages.
Context {cm : CaseMapping}.

(** One event.  A fetch may settle at any time and on any page, and
    the call that awaited it goes on.  A button acts only on the page
    that shows it, and no page is shown to the role [unknown]; a card
    without action raises an alert and nothing else; [signOut] ends
    with the same updates as [goDashboard]; a result of the scanner
    starts a call of [openStudentById], which runs up to its
    [await]. *)
Definition uiStep (f : faults) (db : store) (session : Session.t)
    (e : uiEvent) (ui : Ui.t) : Ui.t :=
  let app := Ui.app ui in
  let shows (app' : App.t) : Ui.t :=
    {| Ui.app := app'; Ui.awaiting := Ui.awaiting ui |} in
  match e with
  | FetchSettles index =>
      match Ui.awaiting ui !! index with
      | Some sid =>
          {| Ui.app :=
               openStudentByIdResume sid
                 (getDoc f db (studentDocRef session sid)) app;
             Ui.awaiting := delete index (Ui.awaiting ui) |}
      | None => ui
      end
  | _ =>
      if bool_decide (Session.role session = lit "unknown") then ui
      else
        match App.page app, e with
        | PDashboard, ClickCard index =>
            match dashboardCards (Session.role session) with
            | Some cards =>
                match cards !! index with
                | Some c =>
                    match Card.action c with
                    | Some OnAdminStudents => shows (goAdminStudents app)
                    | Some OnScanQR => shows (goScanner app)
                    | None => ui
                    end
                | None => ui
                end
            | None => ui
            end
        | PDashboard, ClickSignOut =>
            match dashboardCards (Session.role session) with
            | Some _ => shows (navigate PDashboard app)
            | None => ui
            end
        | PScanner, ScannerCalls (OnScan text sessionId) =>
            let r := openStudentByIdStart (VStr text) sessionId app in
            {| Ui.app := r.1;
               Ui.awaiting :=
                 Ui.awaiting ui
                 ++ match r.2 with Some sid => [sid] | None => [] end |}
        | PScanner, ScannerCalls OnGoDashboard => shows (goDashboard app)
        | PStudent, ClickStudentBack => shows (goDashboard app)
        | PStudent, ClickRescan => shows (goScanner app)
        | PAdminStudents, ClickAdminBack => shows (goDashboard app)
        | PAdminStudents, ClickAdminScanner => shows (goScanner app)
        | _, _ => ui
        end
  end.

(** A series of events, first to last. *)
Definition uiRunFrom (f : faults) (db : store) (session : Session.t)
    (events : list uiEvent) (ui : Ui.t) : Ui.t :=
  foldl (λ u e, uiStep f db session e u) ui events.

(** A series of events from a state of [App] in which no call of
    [openStudentById] is suspended, as when the application starts. *)
Definition uiRun (f : faults) (db : store) (session : Session.t)
    (events : list uiEvent) (app : App.t) : App.t :=
  Ui.app (uiRunFrom f db session events {| Ui.app := app; Ui.awaiting := [] |}).

End Pages.

(** The application as it starts: [useState] and [useRef] of [App]. *)
Definition appStart : App.t :=
  {| App.page := PDashboard; App.student := None;
     App.studentLoadError := NoError; App.scanSession := 0 |}.

(** ** Vocabulary of the statements *)

(** The notions below are not part of the program: they name the inputs
    and the measures that the properties of Part II speak about. *)

(** The code units of an accepted identifier: [S], the hyphen, digits. *)
Definition idUnit (c : N) : Prop := c = 83 ∨ c = 45 ∨ isDigit c = true.

(** A series of navigations, first to last. *)
Definition navigations (targets : list page) (app : App.t) : App.t :=
  foldl (λ a target, navigate target a) app targets.

(** How many results a scanner can still hand over without a new start:
    one for a decode that has not happened yet, one for a timer that is
    pending. *)
Definition scanCredit (sc : Scanner.t) : nat :=
  ((if Scanner.didScan sc then 0 else 1)
   + (match Scanner.pendingTimeout sc with Some _ => 1 | None => 0 end))%nat.

(** The markup characters that must not survive: less-than,
    greater-than, double quote, single quote. *)
Definition isMarkup (c : N) : bool := existsb (N.eqb c) [60; 62; 34; 39].

(** A field as it is written in a line: bare, or between double
    quotes. *)
Inductive cell :=
| Bare (field : str)
| Quoted (field : str).

Definition cellField (c : cell) : str :=
  match c with Bare field | Quoted field => field end.

Definition cellText (c : cell) : str :=
  match c with
  | Bare field => field
  | Quoted field => dq ++ field ++ dq
  end.

(** Every double quote of [field] directly follows a backslash, [prev]
    being the code unit before the field.  [splitCSVLine] takes such a
    quote as an ordinary character. *)
Fixpoint quotesEscaped (prev : option N) (field : str) : bool :=
  match field with
  | [] => true
  | c :: rest =>
      (negb (c =? 34) || bool_decide (prev = Some 92))
      && quotesEscaped (Some c) rest
  end.

(** A bare field holds no comma and no quote but escaped ones; a quoted
    field holds no quote but escaped ones and does not end with a
    backslash, which would escape the closing quote. *)
Definition cellOk (c : cell) : Prop :=
  match c with
  | Bare field => quotesEscaped None field = true ∧ (44 ∉ field)
  | Quoted field => quotesEscaped None field = true ∧ last field ≠ Some 92
  end.

(** The texts joined by a separator. *)
Fixpoint joinWith (sep : N) (pieces : list str) : str :=
  match pieces with
  | [] => []
  | [piece] => piece
  | piece :: rest => piece ++ sep :: joinWith sep rest
  end.

(** The code unit before the position reached after reading [field]. *)
Definition prevAfter (field : str) (prev : option N) : option N :=
  match last field with
  | Some c => Some c
  | None => prev
  end.

(** The regions of a line are the texts between its double quotes: in
    turn outside and inside quotes, beginning outside.  A double quote
    that directly follows a backslash delimits nothing and is part of
    the region that holds it, and no backslash stands directly before a
    quote that delimits.  [prev] is the code unit before the first
    region. *)
Fixpoint regionsOkFrom (prev : option N) (regions : list str) : Prop :=
  match regions with
  | [] => True
  | region :: rest =>
      quotesEscaped prev region = true
      ∧ match rest with
        | [] => True
        | _ :: _ =>
            prevAfter region prev ≠ Some 92 ∧ regionsOkFrom (Some 34) rest
        end
  end.

Definition regionsOk : list str → Prop := regionsOkFrom None.

(** What a code unit of a region is for the fields: a comma outside
    quotes separates, every other code unit is kept. *)
Inductive mark := Separator | Kept (c : N).

Definition regionMarks (quoted : bool) (region : str) : list mark :=
  (λ c, if negb quoted && (c =? 44) then Separator else Kept c) <$> region.

(** The marks of the regions of a line, the first region being inside
    quotes or not as [quoted] tells. *)
Fixpoint lineMarks (quoted : bool) (regions : list str) : list mark :=
  match regions with
  | [] => []
  | region :: rest => regionMarks quoted region ++ lineMarks (negb quoted) rest
  end.

(** The fields: the kept code units between the separators. *)
Fixpoint markedFields (marks : list mark) : list str :=
  match marks with
  | [] => [[]]
  | Separator :: rest => [] :: markedFields rest
  | Kept c :: rest =>
      match markedFields rest with
      | field :: fields => (c :: field) :: fields
      | [] => [[c]]
      end
  end.

(** The fields that follow when [cur] has been read of the first. *)
Definition continueField (cur : str) (fields : list str) : list str :=
  match fields with
  | field :: rest => (cur ++ field) :: rest
  | [] => [cur]
  end.

(** How a line of the file ends. *)
Inductive lineEnd := LF | CRLF | CR.

Definition lineEndText (e : lineEnd) : str :=
  match e with
  | LF => [10]
  | CRLF => [13; 10]
  | CR => [13]
  end.

(** A line of text: not empty, and without line-end characters. *)
Definition lineOk (line : str) : Prop :=
  line ≠ [] ∧ (10 ∉ line) ∧ (13 ∉ line).

(** The text of a file: lines with their line ends, then a last line
    that is not ended (possibly empty). *)
Definition fileText (lines : list (str * lineEnd)) (lastLine : str) : str :=
  foldr (λ l text, l.1 ++ lineEndText l.2 ++ text) lastLine lines.

(** The file of the description: a header and one data row. *)
Definition sampleCsv : str :=
  lit "studentId,name,grade,section" ++ nl ++ lit "10025,Ahmed,Grade1,A".

(** The same with a second row that has no name. *)
Definition sampleCsvNoName : str :=
  sampleCsv ++ nl ++ lit "10026,,Grade1,A".

(** A file with a header and 250 rows, whose identifiers are 1, 11,
    111 and so on, each line ending with a carriage return and a line
    feed. *)
Definition csv250 : str :=
  lit "studentId,name" ++ nl
  ++ foldr (λ i text, replicate (S i) 49 ++ lit ",A" ++ [13; 10] ++ text)
       [] (seq 0 250).

(** No call to the document store fails. *)
Definition noFaults : faults :=
  {| getDocFails := false; setDocFails := false;
     commitFails := false; getDocsFails := false |}.

(** A one-row file, a document that is already stored under the
    identifier of that row, and the session of an administrator. *)
Definition overwriteCsv : str := lit "studentId,name" ++ nl ++ lit "S-1,New".

Definition adminSession : Session.t :=
  {| Session.uid := lit "u-admin"; Session.role := lit "admin";
     Session.name := lit "Admin"; Session.identifier := lit "admin@example.org";
     Session.schoolId := SCHOOL_ID; Session.schoolName := SCHOOL_NAME |}.

Definition storedStudent : Student.t :=
  {| Student.schoolId := SCHOOL_ID; Student.studentId := lit "S-1";
     Student.name := lit "Old"; Student.grade := lit "Grade1";
     Student.section := lit "A"; Student.createdAt := 1;
     Student.createdBy :=
       {| CreatedBy.role := lit "admin"; CreatedBy.name := lit "Admin";
          CreatedBy.identifier := lit "admin@example.org";
          CreatedBy.via := None |} |}.

(** The canonical identifiers: digits, with or without the prefix
    [S-]. *)
Definition canonicalId (id : str) : Prop :=
  ∃ ds, digitsToEnd ds = true ∧ (id = lit "S-" ++ ds ∨ id = ds).

(** A stored student is filed under its own school and identifier, the
    identifier is canonical, and the name is not empty and trimmed. *)
Definition studentOk (ref : str * str) (d : Student.t) : Prop :=
  Student.schoolId d = ref.1 ∧ Student.studentId d = ref.2
  ∧ canonicalId ref.2
  ∧ Student.name d ≠ [] ∧ trim (Student.name d) = Student.name d.

Definition storeOk (db : store) : Prop := map_Forall studentOk db.



(** The texts of the decode results among the events of a scanner. *)
Definition decodedTexts (events : list scanEvent) : list str :=
  events ≫= λ e, match e with Decode (Some text) => [text] | _ => [] end.

(** * Part II: properties *)

(** ** Strings *)

(** Decides the comparisons and range tests on code units that occur in
    the goal, one at a time. *)
Ltac code_unit_cases :=
  repeat match goal with
  | |- context [N.eqb ?a ?b] => destruct (N.eqb_spec a b); try lia
  | |- context [N.leb ?a ?b] => destruct (N.leb_spec a b); try lia
  | |- context [N.ltb ?a ?b] => destruct (N.ltb_spec a b); try lia
  end.

Lemma startsWith_prefix (s p : str) :
  startsWith s p = true → ∃ r, s = p ++ r.
Proof.
  revert s. induction p as [|a p IH]; intros s Hs.
  - by exists s.
  - destruct s as [|b s]; [done|]. simpl in Hs.
    apply andb_true_iff in Hs as [Hab Hs]. apply N.eqb_eq in Hab as ->.
    destruct (IH _ Hs) as [r ->]. by exists r.
Qed.

Lemma includes_infix (s p : str) :
  includes s p = true → ∃ a b, s = a ++ p ++ b.
Proof.
  induction s as [|c s IH]; intros Hs.
  - destruct p; [|done]. by exists [], [].
  - cbn [includes] in Hs. apply orb_true_iff in Hs as [Hs|Hs].
    + apply startsWith_prefix in Hs as [r Hr]. by exists [], r.
    + destruct (IH Hs) as (a & b & ->). by exists (c :: a), b.
Qed.

Lemma trimStart_suffix (s : str) : trimStart s `suffix_of` s.
Proof.
  induction s as [|c s IH]; simpl; [done|].
  destruct (isWhiteSpace c); [by apply suffix_cons_r | done].
Qed.

Lemma trimEnd_prefix (s : str) : trimEnd s `prefix_of` s.
Proof.
  induction s as [|c s IH]; simpl; [done|].
  destruct (trimEnd s) as [|d r] eqn:E.
  - destruct (isWhiteSpace c); [apply prefix_nil|].
    by apply prefix_cons, prefix_nil.
  - by apply prefix_cons.
Qed.

Lemma trim_Forall (P : N → Prop) (s : str) : Forall P s → Forall P (trim s).
Proof.
  intros Hs. unfold trim.
  destruct (trimEnd_prefix (trimStart s)) as [k1 E1].
  destruct (trimStart_suffix s) as [k2 E2].
  rewrite E2, E1 in Hs.
  by apply Forall_app in Hs as [_ Hs%Forall_app]; destruct Hs.
Qed.

Lemma stripWhitespace_Forall (P : N → Prop) (s : str) :
  Forall P s → Forall P (stripWhitespace s).
Proof.
  rewrite !Forall_forall. intros Hs c [_ Hc]%list_elem_of_filter. auto.
Qed.

(** A string without white space is left alone by [trim] and by
    [stripWhitespace]. *)
Lemma trimStart_id (s : str) :
  Forall (λ c, isWhiteSpace c = false) s → trimStart s = s.
Proof. destruct 1 as [|c s Hc _]; simpl; [done|]. by rewrite Hc. Qed.

Lemma trimEnd_id (s : str) :
  Forall (λ c, isWhiteSpace c = false) s → trimEnd s = s.
Proof.
  induction 1 as [|c s Hc _ IH]; simpl; [done|].
  rewrite IH, Hc. by destruct s.
Qed.

Lemma trim_id (s : str) :
  Forall (λ c, isWhiteSpace c = false) s → trim s = s.
Proof. intros Hs. unfold trim. by rewrite trimStart_id, trimEnd_id. Qed.

Lemma stripWhitespace_id (s : str) :
  Forall (λ c, isWhiteSpace c = false) s → stripWhitespace s = s.
Proof.
  induction 1 as [|c s Hc _ IH]; [done|].
  unfold stripWhitespace in *. rewrite filter_cons_True by done. by f_equal.
Qed.

(** ** Case mapping *)

Section CaseMappingFacts.
Context {cm : CaseMapping}.

Lemma toUpperCase_cons (c : N) (s : str) :
  c < 128 → toUpperCase (c :: s) = upperAscii c :: toUpperCase s.
Proof.
  intros Hc. by rewrite (toUpperCase_ascii [] c s Hc), toUpperCase_nil.
Qed.

Lemma toUpperCase_all_ascii (s : str) :
  Forall (λ c, c < 128) s → toUpperCase s = upperAscii <$> s.
Proof.
  induction 1 as [|c s Hc _ IH]; [apply toUpperCase_nil|].
  by rewrite toUpperCase_cons, IH.
Qed.

Lemma toUpperCase_elem (c : N) (s : str) :
  c < 128 → c ∈ s → upperAscii c ∈ toUpperCase s.
Proof.
  intros Hc (a & b & ->)%list_elem_of_split.
  rewrite toUpperCase_ascii by done. set_solver.
Qed.

End CaseMappingFacts.

(** ** The normalizer *)

Lemma idUnit_plain (c : N) :
  idUnit c → c < 128 ∧ upperAscii c = c ∧ isWhiteSpace c = false ∧ c ≠ 58.
Proof.
  unfold idUnit, isDigit, upperAscii, isWhiteSpace. simpl.
  intros [->|[->|Hc]]; [by vm_compute..|].
  apply andb_true_iff in Hc as [?%N.leb_le ?%N.leb_le].
  repeat split; [lia| |code_unit_cases; done|lia].
  code_unit_cases; done.
Qed.

Lemma digitsToEnd_Forall (ds : str) :
  digitsToEnd ds = true → ds ≠ [] ∧ Forall (λ c, isDigit c = true) ds.
Proof.
  destruct ds as [|d ds]; [done|]. unfold digitsToEnd.
  intros Hds. split; [done|]. apply Forall_forall. intros c Hc.
  rewrite forallb_forall in Hds. by apply Hds, list_elem_of_In.
Qed.

Lemma digitsToEnd_idUnits (ds : str) :
  digitsToEnd ds = true → Forall idUnit ds.
Proof.
  intros [_ Hds]%digitsToEnd_Forall. eapply Forall_impl; [done|].
  unfold idUnit; auto.
Qed.

Lemma digitsToEnd_head (c : N) (ds : str) :
  digitsToEnd (c :: ds) = true → isDigit c = true.
Proof. intros [_ Hds]%digitsToEnd_Forall. by inversion Hds. Qed.

Lemma matchSDigits_shape (s : str) :
  matchSDigits s = true →
  ∃ ds, digitsToEnd ds = true ∧ (s = 83 :: 45 :: ds ∨ s = 83 :: ds).
Proof.
  destruct s as [|c r]; [done|]. unfold matchSDigits.
  intros [->%N.eqb_eq Hr]%andb_true_iff.
  apply orb_true_iff in Hr as [[Hp Hds]%andb_true_iff|Hds].
  - apply startsWith_prefix in Hp as [r' ->]. exists r'. auto.
  - exists r. auto.
Qed.

Lemma matchSDigits_hyphen (ds : str) :
  digitsToEnd ds = true → matchSDigits (83 :: 45 :: ds) = true.
Proof.
  intros Hds. unfold matchSDigits. change (lit "-") with [45].
  cbn [startsWith]. rewrite !N.eqb_refl. cbn [andb drop].
  by rewrite drop_0, Hds.
Qed.

Lemma replaceSPrefix_hyphen (ds : str) :
  replaceSPrefix (83 :: 45 :: ds) = lit "S-" ++ ds.
Proof. reflexivity. Qed.

Lemma replaceSPrefix_bare (ds : str) :
  digitsToEnd ds = true → replaceSPrefix (83 :: ds) = lit "S-" ++ ds.
Proof.
  destruct ds as [|d ds]; [done|]. intros Hd%digitsToEnd_head.
  apply andb_true_iff in Hd as [?%N.leb_le ?%N.leb_le].
  unfold replaceSPrefix. rewrite N.eqb_refl.
  change (lit "-") with [45]. cbn [startsWith].
  destruct (N.eqb_spec 45 d); [lia|done].
Qed.

Lemma accepted_idUnits (s : str) :
  matchSDigits s || matchDigits s = true → Forall idUnit s.
Proof.
  intros [Hs|Hs]%orb_true_iff.
  - destruct (matchSDigits_shape s Hs)
      as (ds & Hds%digitsToEnd_idUnits & [->| ->]).
    + apply Forall_cons; split; [by left|].
      apply Forall_cons; split; [by right; left | done].
    + apply Forall_cons; split; [by left | done].
  - by apply digitsToEnd_idUnits.
Qed.

(** An accepted string does not begin with [S] unless the first pattern
    matches it. *)
Lemma matchDigits_startsWith_S (s : str) :
  matchDigits s = true → startsWith s (lit "S") = false.
Proof.
  destruct s as [|c s]; [done|]. intros Hc%digitsToEnd_head.
  unfold isDigit in Hc. apply andb_true_iff in Hc as [_ ?%N.leb_le].
  change (lit "S") with [83]. cbn [startsWith].
  destruct (N.eqb_spec 83 c); [lia|done].
Qed.

Section NormalizerFacts.
Context {cm : CaseMapping}.

(** The three rejection tests on the cleaned text fail whenever its
    upper-case form matches one of the two patterns. *)
Lemma accepted_not_rejected (cleaned : str) :
  matchSDigits (toUpperCase cleaned) || matchDigits (toUpperCase cleaned) = true →
  startsWith cleaned (lit "{") || startsWith cleaned (lit "http")
    || includes cleaned (lit "://") = false.
Proof.
  intros Hs. pose proof (accepted_idUnits _ Hs) as Hu.
  apply not_true_is_false. intros [[Hr|Hr]%orb_true_iff|Hr]%orb_true_iff.
  - apply startsWith_prefix in Hr as [r ->].
    change (lit "{" ++ r) with (123 :: r) in Hu.
    rewrite toUpperCase_cons in Hu by lia.
    apply Forall_cons_1 in Hu as [[?|[?|?]] _]; done.
  - apply startsWith_prefix in Hr as [r ->].
    change (lit "http" ++ r) with (104 :: 116 :: 116 :: 112 :: r) in Hu.
    rewrite toUpperCase_cons in Hu by lia.
    apply Forall_cons_1 in Hu as [[?|[?|?]] _]; done.
  - apply includes_infix in Hr as (a & b & ->).
    assert (upperAscii 58 ∈ toUpperCase (a ++ lit "://" ++ b)) as Hin.
    { apply toUpperCase_elem; [lia|].
      change (lit "://" ++ b) with (58 :: 47 :: 47 :: b). set_solver. }
    rewrite Forall_forall in Hu. apply Hu, idUnit_plain in Hin.
    by destruct Hin as (_ & _ & _ & ?).
Qed.

(** What the normalizer returns for an accepted text. *)
Lemma normalizeStudentId_accept (raw : value) :
  let s := toUpperCase (stripWhitespace (trim (stringOrEmpty raw))) in
  matchSDigits s || matchDigits s = true →
  normalizeStudentId raw
  = if startsWith s (lit "S") then replaceSPrefix s else s.
Proof.
  intros s Hs. unfold normalizeStudentId. fold s.
  destruct (trim (stringOrEmpty raw)) as [|c t] eqn:Et.
  - subst s. unfold stripWhitespace in Hs. rewrite filter_nil in Hs.
    by rewrite toUpperCase_nil in Hs.
  - rewrite (accepted_not_rejected _ Hs). fold s. by rewrite Hs.
Qed.

(** A text whose code units are all ASCII is normalized in the same way
    under every case mapping. *)
Lemma normalizeStudentId_ascii (raw : value) :
  Forall (λ c, c < 128) (stringOrEmpty raw) →
  normalizeStudentId raw = normalizeStudentId (cm := asciiCase) raw.
Proof.
  intros Hraw. unfold normalizeStudentId.
  by rewrite (toUpperCase_all_ascii
                (stripWhitespace (trim (stringOrEmpty raw))))
    by by apply stripWhitespace_Forall, trim_Forall.
Qed.

(** The canonical forms are fixed points. *)
Lemma normalizeStudentId_fixed (r : str) :
  matchSDigits r || matchDigits r = true →
  normalizeStudentId (VStr r)
  = if startsWith r (lit "S") then replaceSPrefix r else r.
Proof.
  intros Hr. pose proof (accepted_idUnits _ Hr) as Hu.
  assert (stringOrEmpty (VStr r) = r) as Er by by destruct r.
  assert (stripWhitespace (trim r) = r) as Ec.
  { rewrite trim_id, stripWhitespace_id; [done|..];
      (eapply Forall_impl; [done|]; by intros c (_ & _ & ? & _)%idUnit_plain). }
  assert (toUpperCase r = r) as Eu.
  { rewrite toUpperCase_all_ascii
      by (eapply Forall_impl; [done|]; by intros c (? & _)%idUnit_plain).
    clear Hr Er Ec. induction Hu as [|c r (_ & Hc & _)%idUnit_plain _ IH]; [done|].
    by rewrite fmap_cons, Hc, IH. }
  pose proof (normalizeStudentId_accept (VStr r)) as Hn. simpl in Hn.
  rewrite Er, Ec, Eu in Hn. by apply Hn.
Qed.

End NormalizerFacts.

Section NormalizerTheorems.
Context {cm : CaseMapping}.

(** A result that is not empty comes from an accepted text. *)
Lemma normalizeStudentId_nonempty (raw : value) :
  normalizeStudentId raw ≠ [] →
  let s := toUpperCase (stripWhitespace (trim (stringOrEmpty raw))) in
  matchSDigits s || matchDigits s = true.
Proof.
  unfold normalizeStudentId.
  destruct (trim (stringOrEmpty raw)) as [|c t]; [done|].
  destruct (_ || includes _ _); [done|].
  by destruct (matchSDigits _ || matchDigits _).
Qed.

(** The examples of the description, under every case mapping. *)
Lemma normalizeStudentId_examples :
  normalizeStudentId (VStr (lit "10025")) = lit "10025"
  ∧ normalizeStudentId (VStr (lit "s10025")) = lit "S-10025"
  ∧ normalizeStudentId (VStr (lit "S-10025")) = lit "S-10025"
  ∧ normalizeStudentId (VStr (lit "abc")) = [].
Proof.
  repeat split;
    (rewrite normalizeStudentId_ascii;
     [reflexivity | by apply (bool_decide_unpack _)]).
Qed.

(** C1, as the code has it: when the trimmed, white-space-free,
    upper-case form of the input matches [^S-?\d+$], the result is
    [S-] followed by its digits, the hyphen being inserted if absent;
    when it matches [^\d+$], the result is that form itself, without
    any prefix.  So the inputs [s10025] and [S-10025] give [S-10025],
    and [10025] gives [10025]. *)
Theorem normalizeStudentId_canonical :
  (∀ raw : value,
     let s := toUpperCase (stripWhitespace (trim (stringOrEmpty raw))) in
     (matchSDigits s = true →
      ∃ ds, digitsToEnd ds = true
            ∧ (s = lit "S" ++ ds ∨ s = lit "S-" ++ ds)
            ∧ normalizeStudentId raw = lit "S-" ++ ds)
     ∧ (matchDigits s = true → normalizeStudentId raw = s))
  ∧ normalizeStudentId (VStr (lit "s10025")) = lit "S-10025"
  ∧ normalizeStudentId (VStr (lit "S-10025")) = lit "S-10025"
  ∧ normalizeStudentId (VStr (lit "10025")) = lit "10025".
Proof.
  split; [|by destruct normalizeStudentId_examples as (? & ? & ? & _)].
  intros raw s. split; intros Hs.
  - pose proof (normalizeStudentId_accept raw) as Hn. fold s in Hn.
    cbn zeta in Hn. rewrite Hs in Hn. specialize (Hn eq_refl).
    destruct (matchSDigits_shape s Hs) as (ds & Hds & [Es|Es]);
      exists ds; (split; [done|]); rewrite Hn, Es.
    + split; [by right|]. reflexivity.
    + split; [by left|]. change (lit "S") with [83]. cbn [startsWith].
      rewrite N.eqb_refl. by apply replaceSPrefix_bare.
  - pose proof (normalizeStudentId_accept raw) as Hn. fold s in Hn.
    cbn zeta in Hn. rewrite Hs, orb_true_r in Hn.
    by rewrite (Hn eq_refl), matchDigits_startsWith_S.
Qed.

(** C7: the normalizer gives the empty string when the trimmed,
    white-space-free text begins with an opening brace or with [http] or
    contains [://], when the input is empty, and when the upper-case
    form matches neither pattern; so it does for [http://x], for the
    JSON text [{"a":1}], for the empty string and for [abc]. *)
Theorem normalizeStudentId_rejected :
  (∀ raw : value,
     let cleaned := stripWhitespace (trim (stringOrEmpty raw)) in
     startsWith cleaned (lit "{") = true
     ∨ startsWith cleaned (lit "http") = true
     ∨ includes cleaned (lit "://") = true →
     normalizeStudentId raw = [])
  ∧ (∀ raw : value,
       let s := toUpperCase (stripWhitespace (trim (stringOrEmpty raw))) in
       matchSDigits s = false → matchDigits s = false →
       normalizeStudentId raw = [])
  ∧ normalizeStudentId (VStr []) = []
  ∧ normalizeStudentId (VStr (lit "http://x")) = []
  ∧ normalizeStudentId (VStr (lit "{" ++ dq ++ lit "a" ++ dq ++ lit ":1}")) = []
  ∧ normalizeStudentId (VStr (lit "abc")) = [].
Proof.
  repeat split.
  - intros raw cleaned Hr. unfold normalizeStudentId. fold cleaned.
    destruct (trim (stringOrEmpty raw)); [done|].
    by destruct Hr as [-> | [-> | ->]]; rewrite ?orb_true_r.
  - intros raw s Hs Hd. unfold normalizeStudentId. fold s.
    destruct (trim (stringOrEmpty raw)); [done|].
    destruct (_ || includes _ _); [done|]. fold s. by rewrite Hs, Hd.
  - by destruct normalizeStudentId_examples as (_ & _ & _ & ?).
Qed.

(** C8: the normalizer is idempotent on the inputs it accepts. *)
Theorem normalizeStudentId_idempotent (x : value) :
  normalizeStudentId x ≠ [] →
  normalizeStudentId (VStr (normalizeStudentId x)) = normalizeStudentId x.
Proof.
  intros Hx. pose proof (normalizeStudentId_nonempty x Hx) as Hs.
  cbn zeta in Hs. rewrite (normalizeStudentId_accept x Hs).
  set (s := toUpperCase _) in *.
  destruct (matchSDigits s) eqn:Em.
  - destruct (matchSDigits_shape s Em) as (ds & Hds & [-> | ->]).
    + change (lit "S") with [83]. cbn [startsWith]. rewrite N.eqb_refl.
      cbn [andb]. rewrite replaceSPrefix_hyphen.
      rewrite normalizeStudentId_fixed;
        change (lit "S-" ++ ds) with (83 :: 45 :: ds); [done|].
      by rewrite matchSDigits_hyphen.
    + change (lit "S") with [83]. cbn [startsWith]. rewrite N.eqb_refl.
      cbn [andb]. rewrite replaceSPrefix_bare by done.
      rewrite normalizeStudentId_fixed;
        change (lit "S-" ++ ds) with (83 :: 45 :: ds); [done|].
      by rewrite matchSDigits_hyphen.
  - rewrite orb_false_l in Hs. rewrite (matchDigits_startsWith_S s Hs).
    rewrite normalizeStudentId_fixed by by rewrite Hs, orb_true_r.
    by rewrite (matchDigits_startsWith_S s Hs).
Qed.

End NormalizerTheorems.

(** C1 as stated fails for identifiers written without the letter: the
    input [10025] is accepted, and the result is not [S-10025]. *)
Lemma normalizeStudentId_digits_not_prefixed :
  matchDigits
    (toUpperCase (CaseMapping := asciiCase)
       (stripWhitespace (trim (stringOrEmpty (VStr (lit "10025")))))) = true
  ∧ normalizeStudentId (cm := asciiCase) (VStr (lit "10025")) ≠ lit "S-10025".
Proof. split; [reflexivity | by vm_compute]. Qed.

Lemma normalizeStudentId_canonical_witness :
  ∃ ds, digitsToEnd ds = true
        ∧ (toUpperCase (CaseMapping := asciiCase)
             (stripWhitespace (trim (stringOrEmpty (VStr (lit " s 10025 ")))))
           = lit "S" ++ ds
           ∨ toUpperCase (CaseMapping := asciiCase)
               (stripWhitespace (trim (stringOrEmpty (VStr (lit " s 10025 ")))))
             = lit "S-" ++ ds)
        ∧ normalizeStudentId (cm := asciiCase) (VStr (lit " s 10025 "))
          = lit "S-" ++ ds.
Proof.
  apply (proj1 (proj1 (normalizeStudentId_canonical (cm := asciiCase))
                  (VStr (lit " s 10025 ")))).
  reflexivity.
Defined.

Lemma normalizeStudentId_rejected_witness :
  normalizeStudentId (cm := asciiCase) (VStr (lit " https://example.org/S-1")) = [].
Proof.
  apply (proj1 (normalizeStudentId_rejected (cm := asciiCase))).
  right. left. reflexivity.
Defined.

Lemma normalizeStudentId_idempotent_witness :
  normalizeStudentId (cm := asciiCase)
    (VStr (normalizeStudentId (cm := asciiCase) (VStr (lit "s 77"))))
  = normalizeStudentId (cm := asciiCase) (VStr (lit "s 77")).
Proof. apply (normalizeStudentId_idempotent (cm := asciiCase)). by vm_compute. Defined.

(** ** Session and role resolver *)

(** The [try] block fails only when the fetch is rejected. *)
Lemma resolveTry_error (u : FbUser.t) (snap : outcome (option RoleDoc.t)) :
  resolveTry u snap = inl () ↔ snap = Rejected.
Proof. destruct snap as [|[data|]]; simpl; split; congruence. Qed.

(** C6: for an authenticated identity, the effect always sets a
    session; when the role document does not exist, or its fetch is
    rejected, that session has the role [unknown], the default display
    name, and the e-mail address of the identity, or its uid when it has
    no address, as identifier. *)
Theorem roleEffect_degrades (u : FbUser.t)
    (snap : outcome (option RoleDoc.t)) (session : option Session.t) :
  is_Some (roleEffect true (Some u) snap session)
  ∧ (snap = Rejected ∨ snap = Fulfilled None →
     roleEffect true (Some u) snap session
     = Some {| Session.uid := FbUser.uid u;
               Session.role := lit "unknown";
               Session.name := defaultUserName;
               Session.identifier :=
                 match FbUser.email u with
                 | VStr (c :: email) => c :: email
                 | _ => FbUser.uid u
                 end;
               Session.schoolId := lit "demo-school";
               Session.schoolName := lit "Demo School" |}).
Proof.
  split; [by eexists|].
  intros [-> | ->]; unfold roleEffect, resolveSession, resolveTry,
    unknownSession; do 2 f_equal; by destruct (FbUser.email u) as [| |[|]].
Qed.

Lemma roleEffect_degrades_witness :
  roleEffect true
    (Some {| FbUser.uid := lit "u1"; FbUser.email := VNull |})
    Rejected None
  = Some {| Session.uid := lit "u1";
            Session.role := lit "unknown";
            Session.name := defaultUserName;
            Session.identifier := lit "u1";
            Session.schoolId := lit "demo-school";
            Session.schoolName := lit "Demo School" |}.
Proof.
  apply (proj2 (roleEffect_degrades
                  {| FbUser.uid := lit "u1"; FbUser.email := VNull |}
                  Rejected None)).
  by left.
Defined.

(** ** Stale scan results *)

Lemma jsIncrement_advances (n : N) : n < 2 ^ 53 → n < jsIncrement n.
Proof. intros Hn. unfold jsIncrement. destruct (N.ltb_spec n (2 ^ 53)); lia. Qed.

Lemma jsIncrement_mono (n : N) : n ≤ jsIncrement n.
Proof. unfold jsIncrement. destruct (n <? 2 ^ 53); lia. Qed.

Lemma navigations_mono (targets : list page) (app : App.t) :
  App.scanSession app ≤ App.scanSession (navigations targets app).
Proof.
  revert app. induction targets as [|t ts IH]; intros app; simpl; [lia|].
  etrans; [|apply IH]. apply jsIncrement_mono.
Qed.

Lemma navigations_advance (targets : list page) (app : App.t) :
  targets ≠ [] → App.scanSession app < 2 ^ 53 →
  App.scanSession app < App.scanSession (navigations targets app).
Proof.
  destruct targets as [|t ts]; [done|]. intros _ Hn. simpl.
  eapply N.lt_le_trans; [|apply navigations_mono]. by apply jsIncrement_advances.
Qed.

Section StaleResults.
Context {cm : CaseMapping}.

(** C5: a result that carries a token other than the current counter
    makes [openStudentById] return at once: no document is fetched and
    the page, the student and the error stay as they are.  That is the
    case of a token captured before one or more navigations (for a
    counter below 2^53, where adding one is exact). *)
Theorem openStudentById_stale (f : faults) (db : store)
    (session : Session.t) (studentIdRaw : value) (app : App.t) :
  (∀ token : N,
     token ≠ App.scanSession app →
     openStudentById f db session studentIdRaw token app = (app, []))
  ∧ (∀ targets : list page,
       targets ≠ [] → App.scanSession app < 2 ^ 53 →
       openStudentById f db session studentIdRaw (App.scanSession app)
         (navigations targets app)
       = (navigations targets app, [])).
Proof.
  unfold openStudentById. split.
  - intros token Hne. by destruct (N.eqb_spec token (App.scanSession app)).
  - intros targets Ht Hn. pose proof (navigations_advance targets app Ht Hn).
    destruct (N.eqb_spec (App.scanSession app)
                (App.scanSession (navigations targets app))); [lia|done].
Qed.

End StaleResults.

Lemma openStudentById_stale_witness :
  openStudentById (cm := asciiCase)
    {| getDocFails := false; setDocFails := false;
       commitFails := false; getDocsFails := false |}
    ∅
    {| Session.uid := lit "u1"; Session.role := lit "teacher";
       Session.name := lit "T"; Session.identifier := lit "t@example.org";
       Session.schoolId := SCHOOL_ID; Session.schoolName := SCHOOL_NAME |}
    (VStr (lit "S-10025")) 3
    (goScanner
       {| App.page := PDashboard; App.student := None;
          App.studentLoadError := NoError; App.scanSession := 3 |})
  = ({| App.page := PScanner; App.student := None;
        App.studentLoadError := NoError; App.scanSession := 4 |}, []).
Proof.
  apply (proj1 (openStudentById_stale (cm := asciiCase) _ _ _ _
                  (goScanner
                     {| App.page := PDashboard; App.student := None;
                        App.studentLoadError := NoError;
                        App.scanSession := 3 |}))).
  by vm_compute.
Defined.

(** ** Scan de-duplication *)

Lemma scanStep_credit (sessionId : N) (e : scanEvent) (sc : Scanner.t) :
  inSession e = true →
  (length (onScanCalls (scanStep sessionId e sc).2)
   + scanCredit (scanStep sessionId e sc).1 ≤ scanCredit sc)%nat.
Proof.
  destruct sc as [did pending st reason].
  destruct e as [| | |[text|]| | | |]; try done; unfold scanCredit; simpl;
    intros _; destruct did, pending; simpl; lia.
Qed.

Lemma onScanCalls_app (calls1 calls2 : list scanCall) :
  onScanCalls (calls1 ++ calls2) = onScanCalls calls1 ++ onScanCalls calls2.
Proof. unfold onScanCalls. apply bind_app. Qed.

Lemma scanRun_credit (sessionId : N) (events : list scanEvent)
    (sc : Scanner.t) :
  Forall (λ e, inSession e = true) events →
  (length (onScanCalls (scanRun sessionId events sc).2)
   + scanCredit (scanRun sessionId events sc).1 ≤ scanCredit sc)%nat.
Proof.
  intros Hev. revert sc.
  induction Hev as [|e events He _ IH]; intros sc; simpl; [lia|].
  rewrite onScanCalls_app, length_app.
  pose proof (scanStep_credit sessionId e sc He).
  specialize (IH (scanStep sessionId e sc).1). lia.
Qed.

Lemma scanRun_cons (sessionId : N) (e : scanEvent) (events : list scanEvent)
    (sc : Scanner.t) :
  scanRun sessionId (e :: events) sc
  = ((scanRun sessionId events (scanStep sessionId e sc).1).1,
     (scanStep sessionId e sc).2
     ++ (scanRun sessionId events (scanStep sessionId e sc).1).2).
Proof. reflexivity. Qed.

(** The calls of a run in a session are, first, the result of the timer
    that was pending at its beginning, if that timer elapses before it
    is cancelled, and then at most one result of the session itself,
    and none once a result has been scanned. *)
Lemma scanRun_old_new (sessionId : N) (events : list scanEvent)
    (sc : Scanner.t) :
  Forall (λ e, inSession e = true) events →
  ∃ old new : list (str * N),
    onScanCalls (scanRun sessionId events sc).2 = old ++ new
    ∧ (length new ≤ if Scanner.didScan sc then 0 else 1)%nat
    ∧ (old = []
       ∨ ∃ text, Scanner.pendingTimeout sc = Some text
                 ∧ old = [(text, sessionId)]).
Proof.
  intros Hev. revert sc.
  induction Hev as [|e events He _ IH]; intros sc.
  { exists [], []. repeat split; [simpl; lia | by left]. }
  rewrite scanRun_cons. cbn [snd]. rewrite onScanCalls_app.
  destruct sc as [did pending st reason].
  destruct e as [| |message|[text|]| | | |]; try done; cbn [scanStep fst snd].
  - apply (IH {| Scanner.didScan := did; Scanner.pendingTimeout := pending;
                 Scanner.status := Scanning; Scanner.reason := reason |}).
  - apply (IH {| Scanner.didScan := did; Scanner.pendingTimeout := pending;
                 Scanner.status := CameraError; Scanner.reason := message |}).
  - destruct did; cbn [Scanner.didScan fst snd].
    + apply (IH {| Scanner.didScan := true; Scanner.pendingTimeout := pending;
                   Scanner.status := st; Scanner.reason := reason |}).
    + destruct (IH {| Scanner.didScan := true;
                      Scanner.pendingTimeout := Some text;
                      Scanner.status := Scanned; Scanner.reason := reason |})
        as (old & new & E & Hnew & Hold).
      change (scanRun sessionId events _)
        with (scanRun sessionId events
                {| Scanner.didScan := true;
                   Scanner.pendingTimeout := Some text;
                   Scanner.status := Scanned; Scanner.reason := reason |}).
      cbn [Scanner.didScan] in Hnew. destruct new; [|simpl in Hnew; lia].
      rewrite app_nil_r in E. exists [], old. rewrite E.
      repeat split; [|by left].
      destruct Hold as [-> | (t & _ & ->)]; simpl; lia.
  - apply (IH {| Scanner.didScan := did; Scanner.pendingTimeout := pending;
                 Scanner.status := st; Scanner.reason := reason |}).
  - destruct pending as [text|]; cbn [Scanner.pendingTimeout fst snd].
    + destruct (IH {| Scanner.didScan := did; Scanner.pendingTimeout := None;
                      Scanner.status := st; Scanner.reason := reason |})
        as (old & new & E & Hnew & Hold).
      change (scanRun sessionId events (clearPending _))
        with (scanRun sessionId events
                {| Scanner.didScan := did; Scanner.pendingTimeout := None;
                   Scanner.status := st; Scanner.reason := reason |}).
      destruct Hold as [-> | (t & Ht & _)]; [|done].
      exists [(text, sessionId)], new. rewrite E.
      repeat split; [done|]. right. by exists text.
    + apply (IH {| Scanner.didScan := did; Scanner.pendingTimeout := None;
                   Scanner.status := st; Scanner.reason := reason |}).
  - destruct (IH {| Scanner.didScan := did; Scanner.pendingTimeout := None;
                    Scanner.status := st; Scanner.reason := reason |})
      as (old & new & E & Hnew & Hold).
    change (scanRun sessionId events (stopScanner _))
      with (scanRun sessionId events
              {| Scanner.didScan := did; Scanner.pendingTimeout := None;
                 Scanner.status := st; Scanner.reason := reason |}).
    destruct Hold as [-> | (t & Ht & _)]; [|done].
    exists [], new. rewrite E. repeat split; [done|by left].
  - destruct (IH {| Scanner.didScan := did; Scanner.pendingTimeout := None;
                    Scanner.status := st; Scanner.reason := reason |})
      as (old & new & E & Hnew & Hold).
    change (scanRun sessionId events (stopScanner _))
      with (scanRun sessionId events
              {| Scanner.didScan := did; Scanner.pendingTimeout := None;
                 Scanner.status := st; Scanner.reason := reason |}).
    destruct Hold as [-> | (t & Ht & _)]; [|done].
    exists [], new. rewrite E. repeat split; [done|by left].
Qed.

Section ScanLookups.
Context {cm : CaseMapping}.

Lemma openStudentById_fetches (f : faults) (db : store) (session : Session.t)
    (raw : value) (token : N) (app : App.t) :
  (length (openStudentById f db session raw token app).2 ≤ 1)%nat.
Proof.
  unfold openStudentById. destruct (negb _); simpl; [lia|].
  destruct (normalizeStudentId raw); simpl; [lia|].
  destruct (getDoc _ _ _) as [|[d|]]; simpl; lia.
Qed.

(** Handling the calls of a run fetches at most one document for each
    [onScan] call. *)
Lemma handleScanCalls_fetches (f : faults) (db : store) (session : Session.t)
    (calls : list scanCall) (app : App.t) :
  (length (handleScanCalls f db session calls app).2
   ≤ length (onScanCalls calls))%nat.
Proof.
  revert app. induction calls as [|c calls IH]; intros app; simpl; [lia|].
  rewrite length_app. specialize (IH (handleScanCall f db session c app).1).
  destruct c as [text sid|]; simpl in *; [|lia].
  pose proof (openStudentById_fetches f db session (VStr text) sid app). lia.
Qed.

(** Once a result has been scanned, further decode callbacks change
    nothing and call nothing. *)
Lemma scanRun_decodes_ignored (sessionId : N) (results : list (option str))
    (sc : Scanner.t) :
  Scanner.didScan sc = true →
  scanRun sessionId (Decode <$> results) sc = (sc, []).
Proof.
  intros Hdid. induction results as [|[text|] results IH]; [done|..];
    cbn [fmap list_fmap scanRun scanStep]; rewrite ?Hdid; cbn [fst snd];
    by rewrite IH.
Qed.

Lemma scanRun_app (sessionId : N) (events1 events2 : list scanEvent)
    (sc : Scanner.t) :
  scanRun sessionId (events1 ++ events2) sc
  = let r1 := scanRun sessionId events1 sc in
    let r2 := scanRun sessionId events2 r1.1 in
    (r2.1, r1.2 ++ r2.2).
Proof.
  revert sc. induction events1 as [|e events1 IH]; intros sc.
  - simpl. by destruct (scanRun sessionId events2 sc).
  - cbn [app scanRun]. rewrite IH. cbn zeta. cbn [fst snd].
    by rewrite (assoc_L (++)).
Qed.

(** In a camera session, of all the decode results of the session
    at most one reaches the [onScan] handler, whatever callbacks and
    timer events follow the start; the only other call that can occur
    is the one of a timer that was still pending when the camera was
    started, which hands over a result of the session before.  Started
    with no timer pending, a session calls the handler at most once and
    at most one student document is fetched.  When a decode callback
    fires, any number of further callbacks fire after it, and the timer
    then elapses, the handler is called exactly once, with the text of
    the first result and the session token of the scanner; if that
    token is current and the text is a valid identifier, exactly one
    document is fetched. *)
Theorem scanner_single_result (sessionId : N) (sc : Scanner.t) :
  let started := (scanStep sessionId StartCamera sc).1 in
  (∀ events : list scanEvent,
     Forall (λ e, inSession e = true) events →
     ∃ old new : list (str * N),
       onScanCalls (scanRun sessionId events started).2 = old ++ new
       ∧ (length new ≤ 1)%nat
       ∧ (old = []
          ∨ ∃ text, Scanner.pendingTimeout sc = Some text
                    ∧ old = [(text, sessionId)]))
  ∧ (Scanner.pendingTimeout sc = None →
     ∀ events : list scanEvent,
       Forall (λ e, inSession e = true) events →
       (length (onScanCalls (scanRun sessionId events started).2) ≤ 1)%nat
       ∧ ∀ f db session app,
           (length (handleScanCalls f db session
                      (scanRun sessionId events started).2 app).2 ≤ 1)%nat)
  ∧ (∀ (text1 : str) (more : list (option str)),
       let calls :=
         (scanRun sessionId
            (CameraArmed :: Decode (Some text1) :: (Decode <$> more)
             ++ [TimerFires])
            started).2 in
       calls = [OnScan text1 sessionId]
       ∧ ∀ f db session app,
           sessionId = App.scanSession app →
           normalizeStudentId (VStr text1) ≠ [] →
           (handleScanCalls f db session calls app).2
           = [studentDocRef session (normalizeStudentId (VStr text1))]).
Proof.
  intros started. split; [|split].
  - intros events Hev. apply (scanRun_old_new sessionId events started Hev).
  - intros Hp events Hev.
    pose proof (scanRun_credit sessionId events started Hev) as Hc.
    assert (scanCredit started = 1%nat) as Hs.
    { unfold started, scanCredit. simpl. by rewrite Hp. }
    split; [lia|]. intros f db session app.
    pose proof (handleScanCalls_fetches f db session
                  (scanRun sessionId events started).2 app). lia.
  - intros text1 more calls.
    assert (calls = [OnScan text1 sessionId]) as ->.
    { unfold calls, started. cbn [scanRun scanStep fst snd Scanner.didScan].
      rewrite scanRun_app, scanRun_decodes_ignored by done. reflexivity. }
    split; [done|]. intros f db session app -> Hv. simpl.
    unfold openStudentById. rewrite N.eqb_refl. simpl.
    destruct (normalizeStudentId (VStr text1)) as [|c sid]; [done|].
    by destruct (getDoc _ _ _) as [|[d|]].
Qed.

End ScanLookups.

Lemma scanner_single_result_witness :
  (length
     (onScanCalls
        (scanRun 7
           [Decode (Some (lit "S-1")); TimerFires; Decode (Some (lit "S-2"));
            CameraArmed; TimerFires; Unmount]
           (scanStep 7 StartCamera scannerMounted).1).2) ≤ 1)%nat.
Proof.
  apply (proj1 (proj2 (scanner_single_result (cm := asciiCase) 7
                         scannerMounted))
           eq_refl).
  repeat constructor.
Defined.


(** ** HTML escaping *)

(** What [escapeHtml] puts in place of one code unit. *)
Lemma escapeHtml_cons (c : N) (s : str) :
  escapeHtml (VStr (c :: s))
  = (if isHtmlSpecial c then htmlEntity c else [c]) ++ escapeHtml (VStr s).
Proof. unfold escapeHtml. by destruct s. Qed.

Lemma escapeHtml_app (a b : str) :
  escapeHtml (VStr (a ++ b)) = escapeHtml (VStr a) ++ escapeHtml (VStr b).
Proof.
  induction a as [|c a IH]; [by destruct b|].
  by rewrite <-app_comm_cons, !escapeHtml_cons, IH, (assoc_L (++)).
Qed.

(** The replacement of a code unit, spelled out. *)
Lemma escapeHtml_unit (c : N) :
  escapeHtml (VStr [c])
  = if c =? 38 then lit "&amp;"
    else if c =? 60 then lit "&lt;"
    else if c =? 62 then lit "&gt;"
    else if c =? 34 then lit "&quot;"
    else if c =? 39 then lit "&#39;"
    else [c].
Proof.
  rewrite escapeHtml_cons. change (escapeHtml (VStr [])) with (@nil N).
  rewrite app_nil_r. unfold isHtmlSpecial. cbn [existsb].
  destruct (N.eqb_spec c 38) as [->|]; [done|].
  destruct (N.eqb_spec c 60) as [->|]; [done|].
  destruct (N.eqb_spec c 62) as [->|]; [done|].
  destruct (N.eqb_spec c 34) as [->|]; [done|].
  destruct (N.eqb_spec c 39) as [->|]; done.
Qed.

Lemma escapeHtml_unit_safe (c : N) :
  Forall (λ d, isMarkup d = false) (escapeHtml (VStr [c])).
Proof.
  rewrite escapeHtml_unit.
  destruct (N.eqb_spec c 38); [by repeat constructor|].
  destruct (N.eqb_spec c 60); [by repeat constructor|].
  destruct (N.eqb_spec c 62); [by repeat constructor|].
  destruct (N.eqb_spec c 34); [by repeat constructor|].
  destruct (N.eqb_spec c 39); [by repeat constructor|].
  constructor; [|done]. unfold isMarkup. cbn [existsb].
  by code_unit_cases.
Qed.

Lemma escapeHtml_safe (s : value) :
  Forall (λ d, isMarkup d = false) (escapeHtml s).
Proof.
  assert (∀ t, Forall (λ d, isMarkup d = false) (escapeHtml (VStr t))) as Hs.
  { induction t as [|c t IH]; [done|].
    change (c :: t) with ([c] ++ t). rewrite escapeHtml_app.
    apply Forall_app. split; [apply escapeHtml_unit_safe | done]. }
  destruct s as [| |t]; [done..|apply Hs].
Qed.

(** C10: the result of [escapeHtml] holds no less-than, greater-than,
    double-quote or single-quote character; each of these and every
    ampersand is replaced, where it stands, by its entity, and every
    other character is kept; [null] and [undefined] are escaped like the
    empty string; and the document written by [printQR] is its template
    with the escaped name and the escaped identifier of the student in
    the two places meant for them. *)
Theorem escapeHtml_total_and_safe :
  (∀ (s : value) (c : N),
     c ∈ escapeHtml s → c ≠ 60 ∧ c ≠ 62 ∧ c ≠ 34 ∧ c ≠ 39)
  ∧ (∀ (a b : str) (c : N),
       escapeHtml (VStr (a ++ c :: b))
       = escapeHtml (VStr a)
         ++ (if c =? 38 then lit "&amp;"
             else if c =? 60 then lit "&lt;"
             else if c =? 62 then lit "&gt;"
             else if c =? 34 then lit "&quot;"
             else if c =? 39 then lit "&#39;"
             else [c])
         ++ escapeHtml (VStr b))
  ∧ escapeHtml VNull = escapeHtml (VStr [])
  ∧ escapeHtml VUndefined = escapeHtml (VStr [])
  ∧ escapeHtml (VStr []) = []
  ∧ (∀ (qrDataUrl : str) (q : QrFor.t),
       qrDataUrl ≠ [] →
       ∃ name studentId : str,
         printQR qrDataUrl (Some q) true
         = Some (printHead ++ name ++ printAfterName ++ studentId
                 ++ printAfterId ++ qrDataUrl ++ printTail)
         ∧ name = escapeHtml (jsOr (QrFor.name q) (VStr []))
         ∧ studentId = escapeHtml (QrFor.studentId q)
         ∧ Forall (λ d, isMarkup d = false) (name ++ studentId)).
Proof.
  split; [|split; [|split; [|split; [|split]]]]; [|..|reflexivity|reflexivity|reflexivity|].
  - intros s c Hc.
    pose proof (proj1 (Forall_forall _ _) (escapeHtml_safe s) c Hc) as Hm.
    unfold isMarkup in Hm. cbn [existsb] in Hm.
    repeat split; intros ->; discriminate Hm.
  - intros a b c. change (c :: b) with ([c] ++ b).
    by rewrite !escapeHtml_app, escapeHtml_unit.
  - intros qrDataUrl q Hurl. eexists _, _. split; [|split; [done|split; [done|]]].
    + unfold printQR. by destruct qrDataUrl.
    + apply Forall_app. split; apply escapeHtml_safe.
Qed.

Lemma escapeHtml_total_and_safe_witness :
  ∃ name studentId : str,
    printQR (lit "data:image/png;base64,AAAA")
      (Some {| QrFor.studentId := VStr (lit "S-1");
               QrFor.name := VStr (lit "<b>Tom & Ann</b>") |}) true
    = Some (printHead ++ name ++ printAfterName ++ studentId
            ++ printAfterId ++ lit "data:image/png;base64,AAAA" ++ printTail)
    ∧ name = escapeHtml (jsOr (VStr (lit "<b>Tom & Ann</b>")) (VStr []))
    ∧ studentId = escapeHtml (VStr (lit "S-1"))
    ∧ Forall (λ d, isMarkup d = false) (name ++ studentId).
Proof.
  apply (proj2 (proj2 (proj2 (proj2 (proj2 escapeHtml_total_and_safe))))
           (lit "data:image/png;base64,AAAA")
           {| QrFor.studentId := VStr (lit "S-1");
              QrFor.name := VStr (lit "<b>Tom & Ann</b>") |}).
  by vm_compute.
Defined.

(** ** CSV lines and fields *)

Lemma prevAfter_cons (c : N) (field : str) (prev : option N) :
  prevAfter (c :: field) prev = prevAfter field (Some c).
Proof. unfold prevAfter. rewrite last_cons. by destruct (last field). Qed.

Lemma quotesEscaped_start (prev : option N) (field : str) :
  prev ≠ Some 92 → quotesEscaped prev field = quotesEscaped None field.
Proof.
  intros Hprev. destruct field as [|c field]; [done|]. cbn [quotesEscaped].
  by rewrite (bool_decide_eq_false_2 _ Hprev).
Qed.

(** Reading on through code units that are neither an unescaped quote
    nor a separating comma appends them to the current field. *)
Lemma splitCSVLoop_run (field rest : str) (prev : option N)
    (out : list str) (cur : str) (inQuotes : bool) :
  quotesEscaped prev field = true → (inQuotes = false → 44 ∉ field) →
  splitCSVLoop (field ++ rest) prev out cur inQuotes
  = splitCSVLoop rest (prevAfter field prev) out (cur ++ field) inQuotes.
Proof.
  revert prev cur. induction field as [|c field IH]; intros prev cur Hq Hc.
  - by rewrite app_nil_r.
  - cbn [quotesEscaped] in Hq. apply andb_true_iff in Hq as [Hq1 Hq2].
    rewrite prevAfter_cons, <-app_comm_cons. cbn [splitCSVLoop].
    assert ((c =? 34) && negb (bool_decide (prev = Some 92)) = false) as ->.
    { destruct (c =? 34); [|done]. by rewrite orb_false_l in Hq1; rewrite Hq1. }
    assert ((c =? 44) && negb inQuotes = false) as ->.
    { destruct inQuotes; [by rewrite andb_false_r|].
      specialize (Hc eq_refl). apply not_elem_of_cons in Hc as [Hc _].
      by destruct (N.eqb_spec c 44). }
    rewrite IH; [by rewrite <-(assoc_L (++))|done|].
    intros Hf. specialize (Hc Hf). by apply not_elem_of_cons in Hc as [_ ?].
Qed.

(** Reading one well-formed cell appends its field to the current
    field, and leaves the loop outside quotes. *)
Lemma splitCSVLoop_cell (c : cell) (rest : str) (prev : option N)
    (out : list str) (cur : str) :
  cellOk c → prev ≠ Some 92 →
  ∃ prev',
    splitCSVLoop (cellText c ++ rest) prev out cur false
    = splitCSVLoop rest prev' out (cur ++ cellField c) false.
Proof.
  destruct c as [field|field]; simpl; intros [Hq Hc] Hprev.
  - eexists. apply splitCSVLoop_run; [|done].
    by rewrite quotesEscaped_start.
  - exists (Some 34). unfold dq. rewrite <-(assoc_L (++)).
    cbn [app splitCSVLoop]. rewrite ?N.eqb_refl.
    rewrite (bool_decide_eq_false_2 _ Hprev). cbn [negb andb].
    rewrite splitCSVLoop_run by by rewrite ?quotesEscaped_start.
    cbn [app splitCSVLoop]. rewrite ?N.eqb_refl.
    assert (prevAfter field (Some 34) ≠ Some 92) as Hp.
    { unfold prevAfter. by destruct (last field). }
    by rewrite (bool_decide_eq_false_2 _ Hp).
Qed.

(** A line of well-formed cells splits into their fields. *)
Lemma splitCSVLoop_cells (cells : list cell) (prev : option N)
    (out : list str) :
  cells ≠ [] → Forall cellOk cells → prev ≠ Some 92 →
  splitCSVLoop (joinWith 44 (cellText <$> cells)) prev out [] false
  = out ++ (cellField <$> cells).
Proof.
  intros Hne Hok. revert prev out.
  induction Hok as [|c cells Hc Hok IH]; [done|]. intros prev out Hprev.
  destruct cells as [|c' cells].
  - cbn [fmap list_fmap joinWith].
    destruct (splitCSVLoop_cell c [] prev out [] Hc Hprev) as [prev' E].
    rewrite app_nil_r in E. by rewrite E.
  - change (joinWith 44 (cellText <$> c :: c' :: cells))
      with (cellText c ++ 44 :: joinWith 44 (cellText <$> c' :: cells)).
    destruct (splitCSVLoop_cell c (44 :: joinWith 44 (cellText <$> c' :: cells))
                prev out [] Hc Hprev) as [prev' ->].
    cbn [splitCSVLoop]. change (44 =? 34) with false. cbn [andb negb].
    rewrite N.eqb_refl. rewrite IH by done.
    by rewrite <-(assoc_L (++)).
Qed.

Lemma joinWith_cons (sep : N) (c : N) (piece : str) (pieces : list str) :
  joinWith sep ((c :: piece) :: pieces) = c :: joinWith sep (piece :: pieces).
Proof. by destruct pieces. Qed.

Lemma markedFields_nonempty (marks : list mark) : markedFields marks ≠ [].
Proof.
  induction marks as [|[|c] marks IH]; [done..|].
  cbn [markedFields]. by destruct (markedFields marks).
Qed.

(** The loop on one region, the rest of the line being read as
    [tailMarks] tells. *)
Lemma splitCSVLoop_region (region rest : str) (prev : option N)
    (out : list str) (cur : str) (quoted : bool) (tailMarks : list mark) :
  quotesEscaped prev region = true →
  (∀ out' cur',
     splitCSVLoop rest (prevAfter region prev) out' cur' quoted
     = out' ++ continueField cur' (markedFields tailMarks)) →
  splitCSVLoop (region ++ rest) prev out cur quoted
  = out ++ continueField cur
             (markedFields (regionMarks quoted region ++ tailMarks)).
Proof.
  revert prev out cur.
  induction region as [|c region IH]; intros prev out cur Hq Hrest.
  { apply Hrest. }
  cbn [quotesEscaped] in Hq. apply andb_true_iff in Hq as [Hc Hq].
  rewrite prevAfter_cons in Hrest. rewrite <-app_comm_cons.
  cbn [splitCSVLoop].
  assert ((c =? 34) && negb (bool_decide (prev = Some 92)) = false) as ->.
  { destruct (c =? 34); [|done]. by rewrite orb_false_l in Hc; rewrite Hc. }
  unfold regionMarks. rewrite fmap_cons. fold (regionMarks quoted region).
  rewrite (andb_comm (negb quoted)).
  pose proof (markedFields_nonempty (regionMarks quoted region ++ tailMarks)).
  destruct ((c =? 44) && negb quoted); rewrite (IH _ _ _ Hq Hrest);
    rewrite <-app_comm_cons; cbn [markedFields];
    destruct (markedFields (regionMarks quoted region ++ tailMarks))
      as [|field fields]; [done| |done|]; cbn [continueField app];
    by rewrite <-?(assoc_L (++)), ?app_nil_r.
Qed.

(** The loop on a line given by its regions. *)
Lemma splitCSVLoop_regions (regions : list str) (prev : option N)
    (out : list str) (cur : str) (quoted : bool) :
  regionsOkFrom prev regions →
  splitCSVLoop (joinWith 34 regions) prev out cur quoted
  = out ++ continueField cur (markedFields (lineMarks quoted regions)).
Proof.
  revert prev out cur quoted.
  induction regions as [|region rest IH]; intros prev out cur quoted Hok.
  { cbn. by rewrite app_nil_r. }
  destruct Hok as [Hq Hrest]. destruct rest as [|region' rest].
  - cbn [joinWith lineMarks]. rewrite <-(app_nil_r region) at 1.
    apply splitCSVLoop_region; [done|]. intros out' cur'. cbn.
    by rewrite app_nil_r.
  - destruct Hrest as [Hprev Hrest].
    change (joinWith 34 (region :: region' :: rest))
      with (region ++ 34 :: joinWith 34 (region' :: rest)).
    cbn [lineMarks]. apply splitCSVLoop_region; [done|]. intros out' cur'.
    cbn [splitCSVLoop]. rewrite N.eqb_refl, (bool_decide_eq_false_2 _ Hprev).
    cbn [andb negb]. by apply IH.
Qed.

(** Every line is given by regions. *)
Lemma regions_exist (line : str) (prev : option N) :
  ∃ region rest,
    regionsOkFrom prev (region :: rest)
    ∧ joinWith 34 (region :: rest) = line.
Proof.
  revert prev. induction line as [|c line IH]; intros prev.
  { by exists [], []. }
  destruct (IH (Some c)) as (region & rest & Hok & Hjoin).
  destruct ((c =? 34) && negb (bool_decide (prev = Some 92))) eqn:Hc.
  - apply andb_true_iff in Hc as [->%N.eqb_eq Hprev].
    apply negb_true_iff, bool_decide_eq_false in Hprev.
    exists [], (region :: rest). split; [by split|]. by rewrite <-Hjoin.
  - exists (c :: region), rest. split; [|by rewrite joinWith_cons, Hjoin].
    destruct Hok as [Hq Hrest]. split.
    + cbn [quotesEscaped]. rewrite Hq, andb_true_r.
      destruct (c =? 34); [|done]. cbn [andb negb] in *.
      by apply negb_false_iff in Hc as ->.
    + destruct rest; [done|]. by rewrite prevAfter_cons.
Qed.

(** The fields joined by commas are the marked code units, a separator
    being a comma. *)
Lemma markedFields_join (marks : list mark) :
  joinWith 44 (markedFields marks)
  = (λ m, match m with Separator => 44 | Kept c => c end) <$> marks.
Proof.
  induction marks as [|[|c] marks IH]; [done|..].
  - cbn [markedFields]. pose proof (markedFields_nonempty marks).
    destruct (markedFields marks) as [|field fields]; [done|].
    rewrite fmap_cons, <-IH. reflexivity.
  - cbn [markedFields]. pose proof (markedFields_nonempty marks).
    destruct (markedFields marks) as [|field fields]; [done|].
    by rewrite joinWith_cons, IH.
Qed.

Lemma lineMarks_units (quoted : bool) (regions : list str) :
  (λ m, match m with Separator => 44 | Kept c => c end)
    <$> lineMarks quoted regions
  = concat regions.
Proof.
  revert quoted. induction regions as [|region rest IH]; intros quoted; [done|].
  cbn [lineMarks concat]. rewrite fmap_app, IH. f_equal.
  unfold regionMarks. rewrite <-list_fmap_compose.
  rewrite <-(list_fmap_id region) at 2. apply list_fmap_ext.
  intros i c _. cbn. destruct (N.eqb_spec c 44) as [->|]; by destruct quoted.
Qed.

(** ** Line ends *)

Lemma replaceCRLF_cons (c : N) (s : str) :
  c ≠ 13 → replaceCRLF (c :: s) = c :: replaceCRLF s.
Proof.
  intros Hc. destruct s as [|d s]; [done|]. cbn [replaceCRLF].
  by destruct (N.eqb_spec c 13).
Qed.

Lemma replaceCRLF_app (line s : str) :
  13 ∉ line → replaceCRLF (line ++ s) = line ++ replaceCRLF s.
Proof.
  induction line as [|c line IH]; [done|].
  intros [Hc Hl]%not_elem_of_cons.
  by rewrite <-!app_comm_cons, replaceCRLF_cons, IH.
Qed.

Lemma replaceCRLF_id (line : str) : 13 ∉ line → replaceCRLF line = line.
Proof.
  intros Hl. rewrite <-(app_nil_r line) at 1.
  by rewrite replaceCRLF_app, app_nil_r.
Qed.

Lemma replaceCR_app (a b : str) : replaceCR (a ++ b) = replaceCR a ++ replaceCR b.
Proof. apply fmap_app. Qed.

Lemma replaceCR_id (line : str) : 13 ∉ line → replaceCR line = line.
Proof.
  induction line as [|c line IH]; [done|].
  intros [Hc Hl]%not_elem_of_cons. unfold replaceCR in *.
  rewrite fmap_cons, IH by done. by destruct (N.eqb_spec c 13).
Qed.

(** Every kind of line end becomes one line feed, provided that what
    follows a bare carriage return does not begin with a line feed. *)
Lemma unify_lineEnd (e : lineEnd) (s : str) :
  head s ≠ Some 10 →
  replaceCR (replaceCRLF (lineEndText e ++ s)) = 10 :: replaceCR (replaceCRLF s).
Proof.
  intros Hs. destruct e.
  - change (lineEndText LF ++ s) with (10 :: s).
    by rewrite replaceCRLF_cons.
  - reflexivity.
  - change (lineEndText CR ++ s) with (13 :: s).
    destruct s as [|d s]; [done|].
    assert (d ≠ 10) as Hd by (simpl in Hs; congruence).
    change (replaceCRLF (13 :: d :: s))
      with (if (13 =? 13) && (d =? 10) then 10 :: replaceCRLF s
            else 13 :: replaceCRLF (d :: s)).
    by destruct (N.eqb_spec d 10).
Qed.

Lemma split_line (line s : str) :
  10 ∉ line →
  split 10 (line ++ 10 :: s) = line :: split 10 s.
Proof.
  induction line as [|c line IH]; intros Hl.
  - simpl. done.
  - apply not_elem_of_cons in Hl as [Hc Hl]. rewrite <-app_comm_cons.
    cbn [split]. destruct (N.eqb_spec c 10); [done|]. by rewrite IH.
Qed.

Lemma split_last (line : str) : 10 ∉ line → split 10 line = [line].
Proof.
  induction line as [|c line IH]; intros Hl; [done|].
  apply not_elem_of_cons in Hl as [Hc Hl]. cbn [split].
  destruct (N.eqb_spec c 10); [done|]. by rewrite IH.
Qed.

Lemma csvLines_fileText (lines : list (str * lineEnd)) (lastLine : str) :
  Forall (λ l, lineOk l.1) lines → (10 ∉ lastLine) → (13 ∉ lastLine) →
  csvLines (VStr (fileText lines lastLine))
  = lines.*1 ++ filterBoolean [lastLine].
Proof.
  intros Hlines Hl10 Hl13. unfold csvLines.
  assert (stringOrEmpty (VStr (fileText lines lastLine))
          = fileText lines lastLine) as -> by by destruct (fileText _ _).
  assert (∀ ls, Forall (λ l, lineOk l.1) ls →
            head (fileText ls lastLine) ≠ Some 10) as Hhead.
  { intros [|[l e] ls] Hls; simpl.
    - destruct lastLine as [|c r]; [done|].
      apply not_elem_of_cons in Hl10 as [? _]. simpl. congruence.
    - apply Forall_cons_1 in Hls as [(Hne & H10 & _) _]. simpl in *.
      destruct l as [|c l]; [done|].
      apply not_elem_of_cons in H10 as [? _]. simpl. congruence. }
  induction Hlines as [|[line e] lines (Hne & H10 & H13) Hlines IH].
  - cbn [fileText foldr fmap list_fmap app].
    by rewrite replaceCRLF_id, replaceCR_id, split_last.
  - cbn [fileText foldr fst snd] in *. fold (fileText lines lastLine) in *.
    rewrite replaceCRLF_app, replaceCR_app, replaceCR_id by done.
    fold (replaceCR (replaceCRLF (lineEndText e ++ fileText lines lastLine))).
    rewrite unify_lineEnd by by apply Hhead.
    rewrite split_line by done.
    unfold filterBoolean in *. rewrite filter_cons_True by done.
    rewrite fmap_cons, <-app_comm_cons. cbn [fst]. f_equal. apply IH.
Qed.

(** C9, as the code has it.  Every line is a series of regions, the
    texts between its double quotes, in turn outside and inside quotes,
    where a double quote that directly follows a backslash delimits
    nothing and stays in its region with the backslash.  Whatever the
    regions, the fields of the line are what the commas of the regions
    outside quotes separate: the commas of the regions inside quotes
    are kept, the delimiting quotes are dropped, and nothing else is
    lost, the fields joined by commas being the regions put together.
    In particular a line made of bare fields and of fields between
    double quotes, separated by commas, splits into those fields, a
    quoted field not ending with a backslash.  A text whose lines end
    with a line feed, with a carriage return and a line feed, or with a
    bare carriage return is cut into the same lines, each kind of line
    end counting once. *)
Theorem parseCSV_fields_and_lines :
  (∀ regions : list str,
     regionsOk regions →
     splitCSVLine (joinWith 34 regions)
     = markedFields (lineMarks false regions))
  ∧ (∀ line : str,
       ∃ regions, regionsOk regions ∧ joinWith 34 regions = line)
  ∧ (∀ regions : list str,
       regionsOk regions →
       joinWith 44 (splitCSVLine (joinWith 34 regions)) = concat regions)
  ∧ (∀ cells : list cell,
       cells ≠ [] → Forall cellOk cells →
       splitCSVLine (joinWith 44 (cellText <$> cells)) = cellField <$> cells)
  ∧ (∀ (lines : list (str * lineEnd)) (lastLine : str),
       Forall (λ l, lineOk l.1) lines →
       10 ∉ lastLine → 13 ∉ lastLine →
       csvLines (VStr (fileText lines lastLine))
       = lines.*1 ++ filterBoolean [lastLine])
  ∧ parseCSV
      (VStr (lit "name,note" ++ [13; 10]
             ++ dq ++ lit "Doe, Jane" ++ dq ++ lit ",x" ++ [13]
             ++ lit "Bob," ++ dq ++ lit "a,b" ++ dq ++ [10]))
    = [ {[ lit "name" := lit "Doe, Jane"; lit "note" := lit "x" ]};
        {[ lit "name" := lit "Bob"; lit "note" := lit "a,b" ]} ].
Proof.
  assert (∀ regions : list str,
            regionsOk regions →
            splitCSVLine (joinWith 34 regions)
            = markedFields (lineMarks false regions)) as Hregions.
  { intros regions Hok. unfold splitCSVLine.
    rewrite splitCSVLoop_regions by done. cbn [app].
    pose proof (markedFields_nonempty (lineMarks false regions)).
    by destruct (markedFields (lineMarks false regions)). }
  split; [done|]. split; [|split; [|split; [|split]]].
  - intros line. destruct (regions_exist line None) as (region & rest & ?).
    by exists (region :: rest).
  - intros regions Hok.
    by rewrite Hregions, markedFields_join, lineMarks_units.
  - intros cells Hne Hok. unfold splitCSVLine.
    by rewrite splitCSVLoop_cells.
  - apply csvLines_fileText.
  - by vm_compute.
Qed.

Lemma parseCSV_fields_and_lines_witness :
  splitCSVLine (lit "a" ++ dq ++ lit "b,c" ++ dq ++ lit "d,e")
  = [lit "ab,cd"; lit "e"].
Proof.
  apply (proj1 parseCSV_fields_and_lines [lit "a"; lit "b,c"; lit "d,e"]).
  repeat split; discriminate.
Defined.

(** C9 as stated fails when a backslash stands before a quote: in the
    line made of the quoted field [a\] (97, 92), a comma and [b], the
    closing quote is not taken as a quote, so the comma after it does
    not separate and the quote stays in the value. *)
Lemma splitCSVLine_backslash_quote :
  splitCSVLine (dq ++ [97; 92] ++ dq ++ lit ",b")
  = [[97; 92] ++ dq ++ lit ",b"]
  ∧ splitCSVLine (dq ++ [97; 92] ++ dq ++ lit ",b") ≠ [[97; 92]; lit "b"].
Proof. split; [reflexivity | by vm_compute]. Qed.

(** ** Bulk import *)

Section ImportFacts.
Context {cm : CaseMapping}.

Lemma cleanRows_ascii (rows : list row) :
  Forall (λ r, Forall (λ c, c < 128) (stringOrEmpty (rawStudentId r))) rows →
  cleanRows rows = cleanRows (cm := asciiCase) rows.
Proof.
  intros Hrows. unfold cleanRows. f_equal.
  induction Hrows as [|r rows Hr _ IH]; [done|].
  rewrite !fmap_cons, IH. f_equal. unfold cleanRow.
  by rewrite normalizeStudentId_ascii.
Qed.

Lemma cleanRows_app (rows1 rows2 : list row) :
  cleanRows (rows1 ++ rows2) = cleanRows rows1 ++ cleanRows rows2.
Proof. unfold cleanRows. by rewrite fmap_app, filter_app. Qed.

(** Every record of [cleaned] has an identifier and a name. *)
Lemma cleanRows_valid (rows : list row) (x : Cleaned.t) :
  x ∈ cleanRows rows → Cleaned.studentId x ≠ [] ∧ Cleaned.name x ≠ [].
Proof. intros Hx. by apply list_elem_of_filter in Hx as [Hx _]. Qed.

(** A row without a name is dropped. *)
Lemma cleanRows_drop (rows1 rows2 : list row) (r : row) :
  Cleaned.name (cleanRow r) = [] →
  cleanRows (rows1 ++ r :: rows2) = cleanRows (rows1 ++ rows2).
Proof.
  intros Hr. change (r :: rows2) with ([r] ++ rows2).
  rewrite !cleanRows_app. f_equal. unfold cleanRows at 1.
  cbn [fmap list_fmap]. rewrite filter_cons_False; [done|].
  intros [_ Hname]. by apply Hname.
Qed.

Lemma cleanRow_no_name (r : row) :
  r !! lit "name" = None ∨ r !! lit "name" = Some [] →
  r !! lit "Name" = None ∨ r !! lit "Name" = Some [] →
  Cleaned.name (cleanRow r) = [].
Proof.
  unfold cleanRow, getProp. cbn [Cleaned.name].
  by intros [-> | ->] [-> | ->].
Qed.

Lemma importBatch_length (now : N) (session : Session.t)
    (cleaned : list Cleaned.t) :
  length (importBatch now session cleaned) = (length cleaned `min` 200)%nat.
Proof. unfold importBatch. rewrite length_fmap, length_take. lia. Qed.

End ImportFacts.

(** Applying a batch of writes adds at most one document for each. *)
Lemma commit_size (batch : list ((str * str) * Student.t)) (db : store) :
  (size (foldl (λ d w, <[w.1 := w.2]> d) db batch)
   ≤ size db + length batch)%nat.
Proof.
  revert db. induction batch as [|w batch IH]; intros db; simpl; [lia|].
  etrans; [apply IH|]. rewrite map_size_insert.
  destruct (db !! w.1); simpl; lia.
Qed.

(** A reference that the batch does not write keeps its document. *)
Lemma commit_lookup_other (batch : list ((str * str) * Student.t))
    (db : store) (ref : str * str) :
  ref ∉ batch.*1 →
  foldl (λ d w, <[w.1 := w.2]> d) db batch !! ref = db !! ref.
Proof.
  revert db. induction batch as [|w batch IH]; intros db Hr; [done|].
  rewrite fmap_cons in Hr. apply not_elem_of_cons in Hr as [Hw Hr]. simpl.
  rewrite IH by done. by rewrite lookup_insert_ne.
Qed.

(** A reference that the batch writes holds, after the commit, the data
    of one of its writes, whatever the store held before. *)
Lemma commit_lookup_written (batch : list ((str * str) * Student.t))
    (db : store) (ref : str * str) :
  ref ∈ batch.*1 →
  ∃ data, (ref, data) ∈ batch
          ∧ foldl (λ d w, <[w.1 := w.2]> d) db batch !! ref = Some data.
Proof.
  revert db. induction batch as [|[ref' data'] batch IH]; intros db Hr.
  - by apply elem_of_nil in Hr.
  - simpl. destruct (decide (ref ∈ batch.*1)) as [Hin|Hnot].
    + destruct (IH (<[ref' := data']> db) Hin) as (data & Hd & E).
      exists data. split; [by right | done].
    + rewrite fmap_cons in Hr. apply elem_of_cons in Hr as [-> | ?]; [|done].
      exists data'. split; [by left|].
      rewrite commit_lookup_other by done. apply lookup_insert_eq.
Qed.

Section ImportTheorems.
Context {cm : CaseMapping}.

(** What the import does when the file can be read, has valid rows, and
    the commit succeeds. *)
Lemma importCSV_commits (f : faults) (now : N) (session : Session.t)
    (text : str) (st : Admin.t) (db : store) :
  Session.role session = lit "admin" → commitFails f = false →
  cleanRows (parseCSV (VStr text)) ≠ [] →
  (importCSV f now session (Some (Fulfilled text)) st db).2
  = foldl (λ d w, <[w.1 := w.2]> d) db
      (importBatch now session (cleanRows (parseCSV (VStr text)))).
Proof.
  intros Hrole Hcommit Hrows. unfold importCSV, commit.
  rewrite Hrole, Hcommit. simpl.
  by destruct (cleanRows (parseCSV (VStr text))).
Qed.

(** The import leaves the store alone in every other case. *)
Lemma importCSV_store (f : faults) (now : N) (session : Session.t)
    (file : option (outcome str)) (st : Admin.t) (db : store) :
  (importCSV f now session file st db).2 = db
  ∨ ∃ text, (importCSV f now session file st db).2
            = foldl (λ d w, <[w.1 := w.2]> d) db
                (importBatch now session (cleanRows (parseCSV (VStr text)))).
Proof.
  unfold importCSV, commit. destruct file as [[|text]|]; [|..|by left].
  - destruct (negb _); by left.
  - destruct (negb _); [by left|].
    destruct (cleanRows (parseCSV (VStr text))) eqn:E; [by left|].
    destruct (commitFails f); [by left|]. right. exists text. by rewrite E.
Qed.

(** C2, as the code has it: the file of the description gives exactly
    one cleaned record, with the identifier [10025] as written (no
    prefix is added), the name [Ahmed], the grade [Grade1] and the
    section [A]; a row whose name column is empty or absent is dropped;
    and an import never writes more than 200 records, so that a file
    with 250 valid rows gives a batch of 200. *)
Theorem importCSV_pipeline :
  cleanRows (parseCSV (VStr sampleCsv))
  = [ {| Cleaned.studentId := lit "10025"; Cleaned.name := lit "Ahmed";
         Cleaned.grade := lit "Grade1"; Cleaned.section := lit "A" |} ]
  ∧ (∀ (rows1 rows2 : list row) (r : row),
       (r !! lit "name" = None ∨ r !! lit "name" = Some []) →
       (r !! lit "Name" = None ∨ r !! lit "Name" = Some []) →
       cleanRows (rows1 ++ r :: rows2) = cleanRows (rows1 ++ rows2))
  ∧ cleanRows (parseCSV (VStr sampleCsvNoName))
    = cleanRows (parseCSV (VStr sampleCsv))
  ∧ (∀ (f : faults) (now : N) (session : Session.t)
       (file : option (outcome str)) (st : Admin.t) (db : store),
       (size (importCSV f now session file st db).2 ≤ size db + 200)%nat)
  ∧ (∀ (now : N) (session : Session.t) (text : str),
       length (cleanRows (parseCSV (VStr text))) = 250%nat →
       length (importBatch now session (cleanRows (parseCSV (VStr text))))
       = 200%nat).
Proof.
  split; [|split; [|split; [|split]]].
  - rewrite cleanRows_ascii; [by vm_compute|].
    by apply (bool_decide_unpack _).
  - intros rows1 rows2 r Hn1 Hn2. by apply cleanRows_drop, cleanRow_no_name.
  - rewrite (cleanRows_ascii (parseCSV (VStr sampleCsvNoName))),
      (cleanRows_ascii (parseCSV (VStr sampleCsv)));
      [by vm_compute|by apply (bool_decide_unpack _)..].
  - intros f now session file st db.
    destruct (importCSV_store f now session file st db) as [-> | [text ->]];
      [lia|].
    etrans; [apply commit_size|]. rewrite importBatch_length. lia.
  - intros now session text Hlen. by rewrite importBatch_length, Hlen.
Qed.

End ImportTheorems.

(** C2 as stated fails on its first part: the record made from the row
    [10025,Ahmed,Grade1,A] does not carry the identifier [S-10025]. *)
Lemma importCSV_pipeline_keeps_digits :
  cleanRows (cm := asciiCase) (parseCSV (VStr sampleCsv))
  ≠ [ {| Cleaned.studentId := lit "S-10025"; Cleaned.name := lit "Ahmed";
         Cleaned.grade := lit "Grade1"; Cleaned.section := lit "A" |} ].
Proof. by vm_compute. Qed.

Lemma importCSV_pipeline_witness :
  length (importBatch 0 adminSession
            (cleanRows (cm := asciiCase) (parseCSV (VStr csv250))))
  = 200%nat.
Proof.
  apply (proj2 (proj2 (proj2 (proj2 (importCSV_pipeline (cm := asciiCase)))))).
  by vm_compute.
Defined.

(** ** Uniqueness of student identifiers *)

Section DirectoryTheorems.
Context {cm : CaseMapping}.

(** [createStudent] never replaces a stored document. *)
Lemma createStudent_keeps (f : faults) (now : N) (session : Session.t)
    (st : Admin.t) (db : store) (existing : Student.t) :
  db !! studentDocRef session (normalizeStudentId (VStr (Admin.studentId st)))
  = Some existing →
  (createStudent f now session st db).2 = db.
Proof.
  intros Hex. unfold createStudent, getDoc.
  destruct (negb _); [done|].
  destruct (normalizeStudentId _) as [|c sid]; [done|].
  destruct (trim _); [done|]. cbn [snd].
  destruct (getDocFails f); [done|]. by rewrite Hex.
Qed.

Lemma createStudent_conflict (f : faults) (now : N) (session : Session.t)
    (st : Admin.t) (db : store) (existing : Student.t) :
  db !! studentDocRef session (normalizeStudentId (VStr (Admin.studentId st)))
  = Some existing →
  Session.role session = lit "admin" →
  normalizeStudentId (VStr (Admin.studentId st)) ≠ [] →
  trim (Admin.fullName st) ≠ [] →
  getDocFails f = false →
  Admin.msg (createStudent f now session st db).1
  = MsgAlreadyExists (normalizeStudentId (VStr (Admin.studentId st))).
Proof.
  intros Hex Hrole Hsid Hname Hget. unfold createStudent, getDoc.
  rewrite Hrole, Hget. cbn [negb bool_decide decide_rel].
  rewrite bool_decide_eq_true_2 by done. cbn [negb].
  change (Admin.studentId (setMsg MsgNone st)) with (Admin.studentId st).
  change (Admin.fullName (setMsg MsgNone st)) with (Admin.fullName st).
  destruct (normalizeStudentId _) as [|c sid]; [done|].
  destruct (trim _); [done|]. by rewrite Hex.
Qed.

(** [createStudent] leaves the store as it is, or adds one document,
    which happens only for an administrator, with a valid identifier
    and a name, when both calls succeed and nothing is stored under the
    identifier. *)
Lemma createStudent_store (f : faults) (now : N) (session : Session.t)
    (st : Admin.t) (db : store) :
  let sid := normalizeStudentId (VStr (Admin.studentId st)) in
  let ref := studentDocRef session sid in
  (createStudent f now session st db).2 = db
  ∨ (Session.role session = lit "admin"
     ∧ sid ≠ [] ∧ trim (Admin.fullName st) ≠ []
     ∧ getDocFails f = false ∧ setDocFails f = false
     ∧ db !! ref = None
     ∧ (createStudent f now session st db).2
       = <[ref := {| Student.schoolId := Session.schoolId session;
                     Student.studentId := sid;
                     Student.name := trim (Admin.fullName st);
                     Student.grade := Admin.grade st;
                     Student.section := Admin.section st;
                     Student.createdAt := now;
                     Student.createdBy :=
                       {| CreatedBy.role := Session.role session;
                          CreatedBy.name := Session.name session;
                          CreatedBy.identifier := Session.identifier session;
                          CreatedBy.via := None |} |}]> db).
Proof.
  intros sid ref. unfold createStudent, getDoc, setDoc. fold sid.
  destruct (decide (Session.role session = lit "admin")) as [Hrole|Hrole].
  2:{ left. by rewrite bool_decide_eq_false_2. }
  rewrite bool_decide_eq_true_2 by done. cbn [negb].
  change (Admin.studentId (setMsg MsgNone st)) with (Admin.studentId st).
  change (Admin.fullName (setMsg MsgNone st)) with (Admin.fullName st).
  fold sid. destruct sid as [|c sid'] eqn:Esid; [by left|].
  destruct (trim (Admin.fullName st)) as [|n name] eqn:Ename; [by left|].
  cbn [snd]. fold ref. destruct (getDocFails f); [by left|].
  destruct (db !! ref) eqn:Eref; [by left|].
  destruct (setDocFails f); [by left|]. right.
  repeat split; try done.
  cbn [snd setSaving setMsg Admin.fullName Admin.grade Admin.section].
  by rewrite Ename.
Qed.

(** With a valid identifier under which nothing is stored, a name, and
    both calls succeeding, an administrator adds the document. *)
Lemma createStudent_adds (f : faults) (now : N) (session : Session.t)
    (st : Admin.t) (db : store) :
  let sid := normalizeStudentId (VStr (Admin.studentId st)) in
  let ref := studentDocRef session sid in
  Session.role session = lit "admin" →
  sid ≠ [] → trim (Admin.fullName st) ≠ [] →
  getDocFails f = false → setDocFails f = false →
  db !! ref = None →
  (createStudent f now session st db).2
  = <[ref := {| Student.schoolId := Session.schoolId session;
                Student.studentId := sid;
                Student.name := trim (Admin.fullName st);
                Student.grade := Admin.grade st;
                Student.section := Admin.section st;
                Student.createdAt := now;
                Student.createdBy :=
                  {| CreatedBy.role := Session.role session;
                     CreatedBy.name := Session.name session;
                     CreatedBy.identifier := Session.identifier session;
                     CreatedBy.via := None |} |}]> db.
Proof.
  intros sid ref Hrole Hsid Hname Hget Hset Hfree.
  destruct (createStudent_store f now session st db)
    as [E | (_ & _ & _ & _ & _ & _ & E)]; [|done].
  exfalso. revert E. unfold createStudent, getDoc, setDoc. fold sid.
  rewrite Hrole, Hget. cbn [negb].
  rewrite bool_decide_eq_true_2 by done. cbn [negb].
  change (Admin.studentId (setMsg MsgNone st)) with (Admin.studentId st).
  change (Admin.fullName (setMsg MsgNone st)) with (Admin.fullName st).
  fold sid. fold ref in Hfree. destruct sid as [|c sid'] eqn:Es; [done|].
  destruct (trim (Admin.fullName st)) as [|n name]; [done|].
  fold ref. rewrite Hfree, Hset. cbn [snd]. intros E.
  apply (f_equal (λ m : store, m !! ref)) in E.
  by rewrite lookup_insert_eq, Hfree in E.
Qed.

(** After a committed import, every record of the batch is stored under
    its identifier with the data of the import, whatever was stored
    there before. *)
Lemma importCSV_writes (f : faults) (now : N) (session : Session.t)
    (text : str) (st : Admin.t) (db : store) (x : Cleaned.t) :
  Session.role session = lit "admin" → commitFails f = false →
  x ∈ take 200 (cleanRows (parseCSV (VStr text))) →
  ∃ y, y ∈ take 200 (cleanRows (parseCSV (VStr text)))
       ∧ Cleaned.studentId y = Cleaned.studentId x
       ∧ (importCSV f now session (Some (Fulfilled text)) st db).2
           !! studentDocRef session (Cleaned.studentId x)
         = Some (importedDoc now session y).
Proof.
  intros Hrole Hcommit Hx.
  rewrite importCSV_commits; [|done..|].
  2:{ intros E. rewrite E in Hx. by apply elem_of_nil in Hx. }
  destruct (commit_lookup_written
              (importBatch now session (cleanRows (parseCSV (VStr text))))
              db (studentDocRef session (Cleaned.studentId x)))
    as (data & Hdata & E).
  { unfold importBatch. rewrite <-list_fmap_compose.
    apply list_elem_of_fmap. by exists x. }
  unfold importBatch in Hdata.
  apply list_elem_of_fmap in Hdata as (y & Hy & Hin).
  injection Hy as Hid ->. exists y. auto.
Qed.

(** C3: creating a student is a check and then a write.  When a
    document is stored under the normalized identifier, the store is
    left as it is, and the conflict is reported when the check of
    existence could be made.  When nothing is stored there, the valid
    input of an administrator is written as a new document under that
    identifier, provided that both calls succeed; and the store changes
    in no other way: after [createStudent] it is the store of before,
    or nothing was stored under the identifier and exactly that
    document has been added.  A committed import stores every record of
    its batch under its identifier without looking at what is there,
    and so it replaces a stored student. *)
Theorem createStudent_refuses_import_overwrites :
  (∀ (f : faults) (now : N) (session : Session.t) (st : Admin.t)
     (db : store) (existing : Student.t),
     let sid := normalizeStudentId (VStr (Admin.studentId st)) in
     db !! studentDocRef session sid = Some existing →
     (createStudent f now session st db).2 = db
     ∧ (Session.role session = lit "admin" → sid ≠ [] →
        trim (Admin.fullName st) ≠ [] → getDocFails f = false →
        Admin.msg (createStudent f now session st db).1
        = MsgAlreadyExists sid))
  ∧ (∀ (f : faults) (now : N) (session : Session.t) (st : Admin.t)
       (db : store),
       let sid := normalizeStudentId (VStr (Admin.studentId st)) in
       let ref := studentDocRef session sid in
       let data :=
         {| Student.schoolId := Session.schoolId session;
            Student.studentId := sid;
            Student.name := trim (Admin.fullName st);
            Student.grade := Admin.grade st;
            Student.section := Admin.section st;
            Student.createdAt := now;
            Student.createdBy :=
              {| CreatedBy.role := Session.role session;
                 CreatedBy.name := Session.name session;
                 CreatedBy.identifier := Session.identifier session;
                 CreatedBy.via := None |} |} in
       (Session.role session = lit "admin" → sid ≠ [] →
        trim (Admin.fullName st) ≠ [] →
        getDocFails f = false → setDocFails f = false →
        db !! ref = None →
        (createStudent f now session st db).2 = <[ref := data]> db)
       ∧ ((createStudent f now session st db).2 = db
          ∨ (db !! ref = None
             ∧ (createStudent f now session st db).2 = <[ref := data]> db)))
  ∧ (∀ (f : faults) (now : N) (session : Session.t) (text : str)
       (st : Admin.t) (db : store) (x : Cleaned.t),
       Session.role session = lit "admin" → commitFails f = false →
       x ∈ take 200 (cleanRows (parseCSV (VStr text))) →
       ∃ y, y ∈ take 200 (cleanRows (parseCSV (VStr text)))
            ∧ Cleaned.studentId y = Cleaned.studentId x
            ∧ (importCSV f now session (Some (Fulfilled text)) st db).2
                !! studentDocRef session (Cleaned.studentId x)
              = Some (importedDoc now session y))
  ∧ (∀ (f : faults) (now : N) (st : Admin.t),
       commitFails f = false →
       let db : store := {[ (SCHOOL_ID, lit "S-1") := storedStudent ]} in
       ∃ data,
         (importCSV f now adminSession (Some (Fulfilled overwriteCsv)) st db).2
           !! (SCHOOL_ID, lit "S-1") = Some data
         ∧ Student.name data = lit "New"
         ∧ data ≠ storedStudent).
Proof.
  split; [|split; [|split]].
  - intros f now session st db existing sid Hex. split.
    + by eapply createStudent_keeps.
    + intros. by eapply createStudent_conflict.
  - intros f now session st db sid ref data. split.
    + apply createStudent_adds.
    + destruct (createStudent_store f now session st db)
        as [E | (_ & _ & _ & _ & _ & Hfree & E)]; [by left|]. by right.
  - apply importCSV_writes.
  - intros f now st Hcommit db.
    assert (cleanRows (parseCSV (VStr overwriteCsv))
            = [ {| Cleaned.studentId := lit "S-1"; Cleaned.name := lit "New";
                   Cleaned.grade := defaultGrade;
                   Cleaned.section := defaultSection |} ]) as Hrows.
    { rewrite cleanRows_ascii; [by vm_compute|].
      by apply (bool_decide_unpack _). }
    destruct (importCSV_writes f now adminSession overwriteCsv st db
                {| Cleaned.studentId := lit "S-1"; Cleaned.name := lit "New";
                   Cleaned.grade := defaultGrade;
                   Cleaned.section := defaultSection |})
      as (y & Hy & _ & E); [done..| |].
    { rewrite Hrows. by apply list_elem_of_singleton. }
    rewrite Hrows in Hy. apply list_elem_of_singleton in Hy as ->.
    eexists. split; [exact E|]. split; [done|].
    intros Heq. by apply (f_equal (λ d, CreatedBy.via (Student.createdBy d))) in Heq.
Qed.

End DirectoryTheorems.

Lemma createStudent_refuses_import_overwrites_witness :
  (createStudent (cm := asciiCase) noFaults 5 adminSession
     {| Admin.studentId := lit "s1"; Admin.fullName := lit "New";
        Admin.grade := defaultGrade; Admin.section := defaultSection;
        Admin.msg := MsgNone; Admin.saving := false;
        Admin.loadingLatest := false |}
     {[ (SCHOOL_ID, lit "S-1") := storedStudent ]}).2
  = {[ (SCHOOL_ID, lit "S-1") := storedStudent ]}.
Proof.
  apply (proj1 (proj1 (createStudent_refuses_import_overwrites (cm := asciiCase))
                  noFaults 5 adminSession
                  {| Admin.studentId := lit "s1"; Admin.fullName := lit "New";
                     Admin.grade := defaultGrade;
                     Admin.section := defaultSection;
                     Admin.msg := MsgNone; Admin.saving := false;
                     Admin.loadingLatest := false |}
                  {[ (SCHOOL_ID, lit "S-1") := storedStudent ]}
                  storedStudent
                  ltac:(by vm_compute))).
Defined.

(** ** Worked examples *)

Example trim_example : trim (lit "  a b  ") = lit "a b".
Proof. reflexivity. Qed.

(** White space of any kind is removed before the patterns are tried:
    here a byte-order mark, spaces and a no-break space. *)
Example normalizeStudentId_spaces :
  normalizeStudentId (cm := asciiCase)
    (VStr ([65279] ++ lit " s - 1 2 " ++ [160])) = lit "S-12".
Proof. reflexivity. Qed.

(** The patterns are tried on the upper-case form: where the case
    mapping turns the long s into [S], an identifier written with it is
    accepted. *)
Example normalizeStudentId_long_s :
  normalizeStudentId (cm := longSCase) (VStr ([383] ++ lit "-12")) = lit "S-12"
  ∧ normalizeStudentId (cm := longSCase) (VStr ([223] ++ lit "12")) = [].
Proof. split; reflexivity. Qed.

Example normalizeStudentId_absent :
  normalizeStudentId (cm := asciiCase) VUndefined = []
  ∧ normalizeStudentId (cm := asciiCase) VNull = [].
Proof. split; reflexivity. Qed.

Example normalizeStudentId_malformed :
  normalizeStudentId (cm := asciiCase) (VStr (lit "S--12")) = []
  ∧ normalizeStudentId (cm := asciiCase) (VStr (lit "S-")) = []
  ∧ normalizeStudentId (cm := asciiCase) (VStr (lit "12S")) = [].
Proof. repeat split; reflexivity. Qed.

Example splitCSVLine_empty_fields :
  splitCSVLine (lit "a,,b,") = [lit "a"; []; lit "b"; []]
  ∧ splitCSVLine [] = [[]].
Proof. split; reflexivity. Qed.

(** Quotes toggle wherever they stand, and are always dropped. *)
Example splitCSVLine_inner_quotes :
  splitCSVLine (lit "a" ++ dq ++ lit "b,c" ++ dq ++ lit "d,e")
  = [lit "ab,cd"; lit "e"].
Proof. reflexivity. Qed.

Example csvLines_mixed_ends :
  csvLines (VStr (lit "a" ++ [13; 13; 10; 10] ++ lit "b")) = [lit "a"; lit "b"].
Proof. reflexivity. Qed.

(** A header named [__proto__] sets no property. *)
Example parseCSV_proto_header :
  parseCSV (VStr (lit "__proto__,name" ++ nl ++ lit "x,Ann"))
  = [ {[ lit "name" := lit "Ann" ]} ].
Proof. by vm_compute. Qed.

Example csv250_rows :
  length (cleanRows (cm := asciiCase) (parseCSV (VStr csv250))) = 250%nat
  ∧ size (importCSV (cm := asciiCase) noFaults 0 adminSession
            (Some (Fulfilled csv250))
            {| Admin.studentId := []; Admin.fullName := [];
               Admin.grade := defaultGrade; Admin.section := defaultSection;
               Admin.msg := MsgNone; Admin.saving := false;
               Admin.loadingLatest := false |} ∅).2 = 200%nat.
Proof. split; by vm_compute. Qed.

(** A new student is stored, and the list is reloaded, which clears the
    message. *)
Example createStudent_new :
  createStudent (cm := asciiCase) noFaults 9 adminSession
    {| Admin.studentId := lit "s2"; Admin.fullName := lit " Ann ";
       Admin.grade := lit "G1"; Admin.section := lit "A";
       Admin.msg := MsgNone; Admin.saving := false;
       Admin.loadingLatest := false |}
    ∅
  = ({| Admin.studentId := []; Admin.fullName := [];
        Admin.grade := lit "G1"; Admin.section := lit "A";
        Admin.msg := MsgNone; Admin.saving := false;
        Admin.loadingLatest := false |},
     {[ (SCHOOL_ID, lit "S-2") :=
          {| Student.schoolId := SCHOOL_ID; Student.studentId := lit "S-2";
             Student.name := lit "Ann"; Student.grade := lit "G1";
             Student.section := lit "A"; Student.createdAt := 9;
             Student.createdBy :=
               {| CreatedBy.role := lit "admin"; CreatedBy.name := lit "Admin";
                  CreatedBy.identifier := lit "admin@example.org";
                  CreatedBy.via := None |} |} ]}).
Proof. vm_compute. reflexivity. Qed.

(** The stop button clears the guard: what is decoded after it belongs
    to another session and is handed over as well. *)
Example scanner_after_stop :
  (scanRun 7
     [CameraArmed; Decode (Some (lit "S-1")); TimerFires; StopButton;
      Decode (Some (lit "S-2")); TimerFires]
     (scanStep 7 StartCamera scannerMounted).1).2
  = [OnScan (lit "S-1") 7; OnScan (lit "S-2") 7].
Proof. reflexivity. Qed.

(** A start does not cancel a pending timer: a result scanned just
    before a restart is still handed over after it. *)
Example scanner_restart_keeps_timer :
  (scanRun 7 [TimerFires; Decode (Some (lit "S-2")); TimerFires]
     (scanRun 7 [StartCamera; Decode (Some (lit "S-1")); StartCamera]
        scannerMounted).1).2
  = [OnScan (lit "S-1") 7; OnScan (lit "S-2") 7].
Proof. reflexivity. Qed.

(** A fresh result opens the student page; the counter is not advanced
    by that. *)
Example openStudentById_found :
  openStudentById (cm := asciiCase) noFaults
    {[ (SCHOOL_ID, lit "S-1") := storedStudent ]} adminSession
    (VStr (lit "s1")) 4
    {| App.page := PScanner; App.student := None;
       App.studentLoadError := NoError; App.scanSession := 4 |}
  = ({| App.page := PStudent; App.student := Some storedStudent;
        App.studentLoadError := NoError; App.scanSession := 4 |},
     [(SCHOOL_ID, lit "S-1")]).
Proof. by vm_compute. Qed.

(** Where the counter stops advancing. *)
Example jsIncrement_limit :
  jsIncrement (2 ^ 53 - 1) = 2 ^ 53 ∧ jsIncrement (2 ^ 53) = 2 ^ 53.
Proof. split; reflexivity. Qed.

(** A role document with a known role. *)
Example roleEffect_teacher :
  roleEffect true
    (Some {| FbUser.uid := lit "u1"; FbUser.email := VStr (lit "t@example.org") |})
    (Fulfilled (Some {| RoleDoc.role := VStr (lit "teacher");
                        RoleDoc.email := VUndefined |}))
    None
  = Some {| Session.uid := lit "u1"; Session.role := lit "teacher";
            Session.name := [1571; 47; 32; 1571; 1581; 1605; 1583];
            Session.identifier := lit "t@example.org";
            Session.schoolId := SCHOOL_ID; Session.schoolName := SCHOOL_NAME |}.
Proof. reflexivity. Qed.

(** * Part III: further properties of the helpers and handlers *)

(** ** Trimming *)

Lemma trimEnd_idemp (s : str) : trimEnd (trimEnd s) = trimEnd s.
Proof.
  induction s as [|c s IH]; [done|]. cbn [trimEnd].
  destruct (trimEnd s) as [|d r] eqn:E.
  - destruct (isWhiteSpace c) eqn:Ec; [done|]. cbn [trimEnd]. by rewrite Ec.
  - cbn [trimEnd]. cbn [trimEnd] in IH. by rewrite IH.
Qed.

Lemma trimStart_head (s : str) :
  match trimStart s with
  | [] => True
  | c :: _ => isWhiteSpace c = false
  end.
Proof.
  induction s as [|c s IH]; [done|]. cbn [trimStart].
  by destruct (isWhiteSpace c) eqn:Ec.
Qed.

Lemma trimEnd_head (c : N) (s : str) :
  isWhiteSpace c = false → ∃ r, trimEnd (c :: s) = c :: r.
Proof.
  intros Hc. cbn [trimEnd]. destruct (trimEnd s); rewrite ?Hc; eauto.
Qed.

Lemma trim_idemp (s : str) : trim (trim s) = trim s.
Proof.
  unfold trim. pose proof (trimStart_head s) as Hh.
  destruct (trimStart s) as [|c t]; [done|].
  destruct (trimEnd_head c t Hh) as [r E].
  rewrite E. cbn [trimStart]. rewrite Hh, <-E. apply trimEnd_idemp.
Qed.

Lemma stripWhitespace_trimStart (s : str) :
  stripWhitespace (trimStart s) = stripWhitespace s.
Proof.
  induction s as [|c s IH]; [done|]. cbn [trimStart].
  destruct (isWhiteSpace c) eqn:Ec; [|done].
  unfold stripWhitespace in *. rewrite filter_cons_False; [done|]. congruence.
Qed.

Lemma stripWhitespace_trimEnd (s : str) :
  stripWhitespace (trimEnd s) = stripWhitespace s.
Proof.
  unfold stripWhitespace.
  induction s as [|c s IH]; [done|]. cbn [trimEnd].
  destruct (trimEnd s) as [|d r] eqn:E.
  - rewrite filter_cons, <-IH.
    destruct (isWhiteSpace c) eqn:Ec; [|by rewrite filter_cons, Ec].
    by destruct (decide _).
  - by rewrite (filter_cons _ c (d :: r)), (filter_cons _ c s), IH.
Qed.

Lemma stripWhitespace_trim (s : str) :
  stripWhitespace (trim s) = stripWhitespace s.
Proof.
  unfold trim. by rewrite stripWhitespace_trimEnd, stripWhitespace_trimStart.
Qed.

(** ** More on the normalizer *)

Section NormalizerMore.
Context {cm : CaseMapping}.

(** The normalizer as a function of the text without white space. *)
Lemma normalizeStudentId_cleaned (raw : value) :
  normalizeStudentId raw
  = let cleaned := stripWhitespace (stringOrEmpty raw) in
    if startsWith cleaned (lit "{") || startsWith cleaned (lit "http")
       || includes cleaned (lit "://")
    then []
    else
      let s := toUpperCase cleaned in
      if matchSDigits s || matchDigits s
      then (if startsWith s (lit "S") then replaceSPrefix s else s)
      else [].
Proof.
  unfold normalizeStudentId. cbn zeta.
  rewrite <-(stripWhitespace_trim (stringOrEmpty raw)).
  destruct (trim (stringOrEmpty raw)) as [|c t]; [|done].
  unfold stripWhitespace. rewrite filter_nil. by rewrite toUpperCase_nil.
Qed.

(** White space does not count: two texts that are equal once their
    white space is removed are normalized alike. *)
Theorem normalizeStudentId_whitespace (a b : str) :
  stripWhitespace a = stripWhitespace b →
  normalizeStudentId (VStr a) = normalizeStudentId (VStr b).
Proof.
  intros E. rewrite !normalizeStudentId_cleaned.
  assert (∀ s, stringOrEmpty (VStr s) = s) as Hs by by intros [|??].
  by rewrite !Hs, E.
Qed.

Lemma normalizeStudentId_empty_or_canonical (raw : value) :
  normalizeStudentId raw = [] ∨ canonicalId (normalizeStudentId raw).
Proof.
  destruct (decide (normalizeStudentId raw = [])) as [|Hne]; [by left|].
  right. pose proof (normalizeStudentId_nonempty raw Hne) as Hs.
  cbn zeta in Hs. rewrite (normalizeStudentId_accept raw Hs).
  set (s := toUpperCase _) in *.
  destruct (matchSDigits s) eqn:Em.
  - destruct (matchSDigits_shape s Em) as (ds & Hds & [-> | ->]);
      exists ds; (split; [done|]); left;
      change (lit "S") with [83]; cbn [startsWith]; rewrite N.eqb_refl;
      cbn [andb]; [reflexivity | by apply replaceSPrefix_bare].
  - rewrite orb_false_l in Hs. rewrite (matchDigits_startsWith_S s Hs).
    exists s. auto.
Qed.

(** A result is empty or canonical, and so holds no slash: it can be
    the last segment of a document path. *)
Theorem normalizeStudentId_shape (raw : value) :
  (normalizeStudentId raw = [] ∨ canonicalId (normalizeStudentId raw))
  ∧ 47 ∉ normalizeStudentId raw.
Proof.
  pose proof (normalizeStudentId_empty_or_canonical raw) as Hshape.
  split; [done|]. destruct Hshape as [-> | (ds & Hds & E)]; [set_solver|].
  assert (Forall idUnit (normalizeStudentId raw)) as Hu.
  { pose proof (digitsToEnd_idUnits ds Hds).
    destruct E as [-> | ->]; [|done].
    change (lit "S-" ++ ds) with (83 :: 45 :: ds).
    repeat (apply Forall_cons; split); [by left | by right; left | done]. }
  rewrite Forall_forall in Hu. intros Hin. apply Hu in Hin.
  destruct Hin as [?|[?|Hd]]; [done..|]. by vm_compute in Hd.
Qed.


End NormalizerMore.

Lemma normalizeStudentId_whitespace_witness :
  normalizeStudentId (cm := asciiCase) (VStr (lit " s - 1 2 "))
  = normalizeStudentId (cm := asciiCase) (VStr (lit "s-12")).
Proof.
  apply (normalizeStudentId_whitespace (cm := asciiCase)). reflexivity.
Defined.

(** ** More on CSV lines *)

Lemma split_nonempty (sep : N) (s : str) : split sep s ≠ [].
Proof.
  destruct s as [|c s]; [done|]. cbn [split].
  destruct (c =? sep); [done|]. by destruct (split sep s).
Qed.

(** Joining the pieces of a split gives the text back. *)
Lemma joinWith_split (sep : N) (s : str) : joinWith sep (split sep s) = s.
Proof.
  induction s as [|c s IH]; [done|]. cbn [split].
  pose proof (split_nonempty sep s) as Hne.
  destruct (N.eqb_spec c sep) as [->|_].
  - destruct (split sep s) as [|p ps]; [done|].
    change (joinWith sep ([] :: p :: ps)) with (sep :: joinWith sep (p :: ps)).
    by rewrite IH.
  - destruct (split sep s) as [|p ps]; [done|].
    by rewrite joinWith_cons, IH.
Qed.

(** No piece of a split holds the separator, and every piece is made of
    code units of the text. *)
Lemma split_pieces (sep : N) (s : str) :
  Forall (λ piece, (sep ∉ piece) ∧ ∀ c, c ∈ piece → c ∈ s) (split sep s).
Proof.
  induction s as [|c s IH].
  - repeat constructor; set_solver.
  - cbn [split]. destruct (N.eqb_spec c sep) as [->|Hc].
    + constructor; [split; set_solver|].
      eapply Forall_impl; [exact IH|]. intros piece [? Hin].
      split; [done|]. intros d Hd. right. auto.
    + pose proof (split_nonempty sep s) as Hne.
      destruct (split sep s) as [|p ps]; [done|].
      apply Forall_cons in IH as [[Hp Hin] IH]. constructor.
      * split; [by apply not_elem_of_cons|].
        intros d [->|Hd]%elem_of_cons; [by left|]. right. auto.
      * eapply Forall_impl; [exact IH|]. intros piece [? Hin'].
        split; [done|]. intros d Hd. right. auto.
Qed.

(** Without quotes, the loop of [splitCSVLine] cuts at every comma. *)
Lemma splitCSVLoop_no_quotes (line : str) (prev : option N)
    (out : list str) (cur : str) :
  34 ∉ line →
  splitCSVLoop line prev out cur false
  = out ++ match split 44 line with
           | piece :: pieces => (cur ++ piece) :: pieces
           | [] => [cur]
           end.
Proof.
  revert prev out cur. induction line as [|c line IH]; intros prev out cur Hq.
  - cbn [splitCSVLoop split]. by rewrite app_nil_r.
  - apply not_elem_of_cons in Hq as [Hc Hq]. cbn [splitCSVLoop split].
    destruct (N.eqb_spec c 34) as [|_]; [done|]. cbn [andb negb].
    destruct (N.eqb_spec c 44) as [->|_]; cbn [andb negb].
    + rewrite IH by done. rewrite <-(assoc_L (++)). cbn [app].
      rewrite app_nil_r. f_equal. f_equal.
      pose proof (split_nonempty 44 line). by destruct (split 44 line).
    + rewrite IH by done. f_equal.
      pose proof (split_nonempty 44 line).
      destruct (split 44 line) as [|p ps]; [done|].
      by rewrite <-(assoc_L (++)).
Qed.

(** A line without double quotes is cut at every comma: its fields
    hold no comma, and joined again by commas they give the line. *)
Theorem splitCSVLine_no_quotes (line : str) :
  34 ∉ line →
  splitCSVLine line = split 44 line
  ∧ joinWith 44 (splitCSVLine line) = line
  ∧ Forall (λ field, 44 ∉ field) (splitCSVLine line).
Proof.
  intros Hq. assert (splitCSVLine line = split 44 line) as E.
  { unfold splitCSVLine. rewrite splitCSVLoop_no_quotes by done.
    pose proof (split_nonempty 44 line). by destruct (split 44 line). }
  rewrite E. split; [done|]. split; [apply joinWith_split|].
  eapply Forall_impl; [apply split_pieces|]. by intros field [? _].
Qed.

Lemma splitCSVLine_no_quotes_witness :
  splitCSVLine (lit "10025,Ahmed,,A") = split 44 (lit "10025,Ahmed,,A")
  ∧ joinWith 44 (splitCSVLine (lit "10025,Ahmed,,A")) = lit "10025,Ahmed,,A"
  ∧ Forall (λ field, 44 ∉ field) (splitCSVLine (lit "10025,Ahmed,,A")).
Proof.
  apply splitCSVLine_no_quotes.
  intros Hin%list_elem_of_In. vm_compute in Hin. intuition lia.
Defined.

Lemma replaceCR_no_CR (s : str) : 13 ∉ replaceCR s.
Proof.
  unfold replaceCR. intros (c & Hc & _)%list_elem_of_fmap.
  destruct (N.eqb_spec c 13); lia.
Qed.

(** Whatever the text, its lines are not empty and hold neither a line
    feed nor a carriage return. *)
Theorem csvLines_clean (text : value) : Forall lineOk (csvLines text).
Proof.
  unfold csvLines, filterBoolean. apply Forall_forall.
  intros line [Hne Hin]%list_elem_of_filter.
  pose proof (split_pieces 10 (replaceCR (replaceCRLF (stringOrEmpty text))))
    as Hp.
  rewrite Forall_forall in Hp. destruct (Hp line Hin) as [H10 Hsub].
  repeat split; [done..|]. intros H13%Hsub. by apply replaceCR_no_CR in H13.
Qed.

(** ** Rows *)

Lemma setProp_lookup (h v k : str) (obj : row) :
  setProp h v obj !! k
  = if bool_decide (h = k ∧ h ≠ lit "__proto__") then Some v else obj !! k.
Proof.
  unfold setProp. destruct (decide (h = lit "__proto__")) as [->|Hp].
  - rewrite bool_decide_eq_true_2 by done.
    rewrite bool_decide_eq_false_2; [done|]. by intros [_ ?].
  - rewrite (bool_decide_eq_false_2 _ Hp). destruct (decide (h = k)) as [->|Hk].
    + rewrite bool_decide_eq_true_2 by done. apply lookup_insert_eq.
    + rewrite bool_decide_eq_false_2 by (by intros [? _]).
      by apply lookup_insert_ne.
Qed.

Lemma forEachHeader_other (headers : list str) (idx : nat)
    (cols : list str) (obj : row) (k : str) :
  k ∉ headers ∨ k = lit "__proto__" →
  forEachHeader headers idx cols obj !! k = obj !! k.
Proof.
  revert idx obj. induction headers as [|h headers IH]; intros idx obj Hk;
    [done|].
  cbn [forEachHeader]. rewrite IH, setProp_lookup.
  - rewrite bool_decide_eq_false_2; [done|]. intros [-> Hp].
    destruct Hk as [Hk| ->]; [|done]. apply Hk. by left.
  - destruct Hk as [Hk|Hk]; [|by right]. left.
    intros Hin. apply Hk. by right.
Qed.

(** What a row holds under a header: the trimmed column at the place of
    the last header with that name, and the empty string when the line
    has no such column. *)
Lemma forEachHeader_lookup (headers : list str) (idx : nat)
    (cols : list str) (obj : row) (i : nat) (h : str) :
  headers !! i = Some h → h ≠ lit "__proto__" →
  (∀ j, (i < j)%nat → headers !! j ≠ Some h) →
  forEachHeader headers idx cols obj !! h
  = Some (trim (default [] (cols !! (idx + i)%nat))).
Proof.
  revert idx obj i.
  induction headers as [|h0 headers IH]; intros idx obj i Hi Hp Hlast; [done|].
  cbn [forEachHeader]. destruct i as [|i].
  - injection Hi as ->. rewrite forEachHeader_other.
    + rewrite setProp_lookup, bool_decide_eq_true_2 by done.
      by rewrite Nat.add_0_r.
    + left. intros (j & Hj)%list_elem_of_lookup.
      by apply (Hlast (S j)); [lia|].
  - rewrite (IH _ _ i); [|done..|].
    + by replace (S idx + i)%nat with (idx + S i)%nat by lia.
    + intros j Hj. apply (Hlast (S j)). lia.
Qed.

Lemma forEachHeader_trimmed (headers : list str) (idx : nat)
    (cols : list str) (obj : row) :
  map_Forall (λ _ v, trim v = v) obj →
  map_Forall (λ _ v, trim v = v) (forEachHeader headers idx cols obj).
Proof.
  revert idx obj. induction headers as [|h headers IH]; intros idx obj Hobj;
    [done|].
  cbn [forEachHeader]. apply IH. unfold setProp. case_bool_decide; [done|].
  apply map_Forall_insert_2; [apply trim_idemp | done].
Qed.

(** Every line after the first gives one row; in a row, every value is
    trimmed, and every key is a trimmed field of the first line other
    than [__proto__]. *)
Theorem parseCSV_rows (text : value) :
  length (parseCSV text) = (length (csvLines text) - 1)%nat
  ∧ ∀ (r : row) (k v : str),
      r ∈ parseCSV text → r !! k = Some v →
      trim v = v ∧ k ≠ lit "__proto__"
      ∧ ∃ line0, head (csvLines text) = Some line0
                 ∧ k ∈ trim <$> splitCSVLine line0.
Proof.
  unfold parseCSV. destruct (csvLines text) as [|line0 lines].
  { split; [done|]. intros r k v Hr. by apply elem_of_nil in Hr. }
  split; [rewrite length_fmap; simpl; lia|].
  intros r k v (line & -> & _)%list_elem_of_fmap Hk.
  split; [|split].
  - exact (forEachHeader_trimmed (trim <$> splitCSVLine line0) 0
             (splitCSVLine line) ∅ (map_Forall_empty _) k v Hk).
  - intros ->. by rewrite forEachHeader_other in Hk by by right.
  - exists line0. split; [done|].
    destruct (decide (k ∈ trim <$> splitCSVLine line0)) as [|Hnot]; [done|].
    by rewrite forEachHeader_other in Hk by by left.
Qed.

Lemma parseCSV_rows_witness :
  trim (lit "Ahmed") = lit "Ahmed" ∧ lit "name" ≠ lit "__proto__"
  ∧ ∃ line0, head (csvLines (VStr sampleCsv)) = Some line0
             ∧ lit "name" ∈ trim <$> splitCSVLine line0.
Proof.
  apply (proj2 (parseCSV_rows (VStr sampleCsv))
           (forEachHeader
              (trim <$> splitCSVLine (lit "studentId,name,grade,section"))
              0 (splitCSVLine (lit "10025,Ahmed,Grade1,A")) ∅)
           (lit "name") (lit "Ahmed")).
  - apply list_elem_of_singleton. vm_compute. reflexivity.
  - vm_compute. reflexivity.
Defined.

(** The value of a row under a header is the trimmed field of its line
    at the place of that header (the last one, if the name is repeated),
    and the empty string if the line has fewer fields. *)
Theorem parseCSV_cell (text : value) (line0 line : str) (lines : list str)
    (i j : nat) (h : str) :
  csvLines text = line0 :: lines →
  lines !! j = Some line →
  (trim <$> splitCSVLine line0) !! i = Some h →
  h ≠ lit "__proto__" →
  (∀ i', (i < i')%nat → (trim <$> splitCSVLine line0) !! i' ≠ Some h) →
  ∃ r, parseCSV text !! j = Some r
       ∧ r !! h = Some (trim (default [] (splitCSVLine line !! i))).
Proof.
  intros Hlines Hj Hi Hp Hlast. unfold parseCSV. rewrite Hlines.
  eexists. split; [by rewrite list_lookup_fmap, Hj|].
  by rewrite (forEachHeader_lookup _ 0 _ _ i h).
Qed.

Lemma parseCSV_cell_witness :
  ∃ r, parseCSV (VStr (lit "id,name,grade" ++ nl ++ lit "7, Ann ")) !! 0%nat
       = Some r
       ∧ r !! lit "grade"
         = Some (trim (default [] (splitCSVLine (lit "7, Ann ") !! 2%nat))).
Proof.
  apply (parseCSV_cell _ (lit "id,name,grade") (lit "7, Ann ")
           [lit "7, Ann "] 2 0).
  - vm_compute. reflexivity.
  - reflexivity.
  - vm_compute. reflexivity.
  - vm_compute. discriminate.
  - intros i' Hi'. rewrite lookup_ge_None_2; [discriminate|]. vm_compute. lia.
Defined.

(** ** More on HTML escaping *)

(** The replacement of a code unit: one of the five entities, or the
    code unit itself, which then is no ampersand. *)
Lemma escapeHtml_unit_cases (c : N) :
  (c = 38 ∧ escapeHtml (VStr [c]) = [38; 97; 109; 112; 59])
  ∨ (c = 60 ∧ escapeHtml (VStr [c]) = [38; 108; 116; 59])
  ∨ (c = 62 ∧ escapeHtml (VStr [c]) = [38; 103; 116; 59])
  ∨ (c = 34 ∧ escapeHtml (VStr [c]) = [38; 113; 117; 111; 116; 59])
  ∨ (c = 39 ∧ escapeHtml (VStr [c]) = [38; 35; 51; 57; 59])
  ∨ (isHtmlSpecial c = false ∧ c ≠ 38 ∧ escapeHtml (VStr [c]) = [c]).
Proof.
  rewrite escapeHtml_unit.
  destruct (N.eqb_spec c 38) as [->|?]; [by left|].
  destruct (N.eqb_spec c 60) as [->|?]; [by right; left|].
  destruct (N.eqb_spec c 62) as [->|?]; [by right; right; left|].
  destruct (N.eqb_spec c 34) as [->|?]; [by right; right; right; left|].
  destruct (N.eqb_spec c 39) as [->|?]; [by right; right; right; right; left|].
  do 5 right. repeat split; [|done]. unfold isHtmlSpecial. cbn [existsb].
  by code_unit_cases.
Qed.

Lemma escapeHtml_step (c : N) (s : str) :
  escapeHtml (VStr (c :: s)) = escapeHtml (VStr [c]) ++ escapeHtml (VStr s).
Proof. change (c :: s) with ([c] ++ s). apply escapeHtml_app. Qed.

Lemma escapeHtml_length (s : str) :
  (length s ≤ length (escapeHtml (VStr s)))%nat.
Proof.
  induction s as [|c s IH]; [done|].
  rewrite escapeHtml_step, length_app. cbn [length].
  destruct (escapeHtml_unit_cases c)
    as [[_ ->]|[[_ ->]|[[_ ->]|[[_ ->]|[[_ ->]|(_ & _ & ->)]]]]];
    cbn [length]; lia.
Qed.

Lemma escapeHtml_inj (a b : str) :
  escapeHtml (VStr a) = escapeHtml (VStr b) → a = b.
Proof.
  revert b. induction a as [|c a IH]; intros [|d b] E; [done|..].
  - rewrite escapeHtml_step in E. exfalso.
    destruct (escapeHtml_unit_cases d)
      as [[_ Hd]|[[_ Hd]|[[_ Hd]|[[_ Hd]|[[_ Hd]|(_ & _ & Hd)]]]]];
      rewrite Hd in E; discriminate E.
  - rewrite escapeHtml_step in E. exfalso.
    destruct (escapeHtml_unit_cases c)
      as [[_ Hc]|[[_ Hc]|[[_ Hc]|[[_ Hc]|[[_ Hc]|(_ & _ & Hc)]]]]];
      rewrite Hc in E; discriminate E.
  - rewrite (escapeHtml_step c), (escapeHtml_step d) in E.
    assert (c = d ∧ escapeHtml (VStr a) = escapeHtml (VStr b)) as [-> E'].
    { destruct (escapeHtml_unit_cases c)
        as [[-> Hc]|[[-> Hc]|[[-> Hc]|[[-> Hc]|[[-> Hc]|(_ & Hc38 & Hc)]]]]];
      destruct (escapeHtml_unit_cases d)
        as [[-> Hd]|[[-> Hd]|[[-> Hd]|[[-> Hd]|[[-> Hd]|(_ & Hd38 & Hd)]]]]];
      rewrite ?Hc, ?Hd in E; cbn [app] in E;
      try discriminate E; try (injection E as E; done);
      try (injection E as E1 E; congruence). }
    f_equal. by apply IH.
Qed.

(** Escaping loses nothing: two different texts have different escaped
    forms, so a text that is already escaped is escaped once more. *)
Theorem escapeHtml_injective (a b : str) :
  a ≠ b → escapeHtml (VStr a) ≠ escapeHtml (VStr b).
Proof. intros Hne E. by apply Hne, escapeHtml_inj. Qed.

Lemma escapeHtml_injective_witness :
  escapeHtml (VStr (lit "<")) ≠ escapeHtml (VStr (lit "&lt;")).
Proof. apply escapeHtml_injective. vm_compute. discriminate. Defined.

(** Escaping changes a text exactly when it holds one of the five
    characters. *)
Theorem escapeHtml_fixed_iff (s : str) :
  escapeHtml (VStr s) = s ↔ Forall (λ c, isHtmlSpecial c = false) s.
Proof.
  split.
  - induction s as [|c s IH]; [done|]. rewrite escapeHtml_step. intros E.
    pose proof (escapeHtml_length s) as Hlen.
    destruct (escapeHtml_unit_cases c)
      as [[-> Hc]|[[-> Hc]|[[-> Hc]|[[-> Hc]|[[-> Hc]|(Hs & _ & Hc)]]]]];
      rewrite Hc in E; cbn [app] in E; try discriminate E.
    + injection E as E. apply (f_equal length) in E. cbn [length] in E. lia.
    + injection E as E. constructor; [done|]. by apply IH.
  - induction 1 as [|c s Hc _ IH]; [done|].
    rewrite escapeHtml_cons, Hc, IH. done.
Qed.

Lemma escapeHtml_fixed_iff_witness :
  escapeHtml (VStr (lit "S-10025")) = lit "S-10025".
Proof. apply escapeHtml_fixed_iff. by repeat constructor. Defined.

(** ** More on the student directory *)

Section DirectoryMore.
Context {cm : CaseMapping}.

(** Only an administrator writes: for any other role both handlers
    leave the store as it is and say so. *)
Theorem directory_writes_need_admin (f : faults) (now : N)
    (session : Session.t) (st : Admin.t) (db : store) (content : outcome str) :
  Session.role session ≠ lit "admin" →
  createStudent f now session st db = (setMsg MsgCreateNotAdmin st, db)
  ∧ importCSV f now session (Some content) st db
    = (setMsg MsgImportNotAdmin st, db).
Proof.
  intros Hrole. unfold createStudent, importCSV.
  by rewrite bool_decide_eq_false_2.
Qed.

(** Neither handler touches a document of another school, and
    [createStudent] touches no document but the one of its
    identifier. *)
Theorem directory_frame (f : faults) (now : N) (session : Session.t)
    (st : Admin.t) (db : store) (file : option (outcome str))
    (ref : str * str) :
  (ref ≠ studentDocRef session
           (normalizeStudentId (VStr (Admin.studentId st))) →
   (createStudent f now session st db).2 !! ref = db !! ref)
  ∧ (ref.1 ≠ Session.schoolId session →
     (createStudent f now session st db).2 !! ref = db !! ref
     ∧ (importCSV f now session file st db).2 !! ref = db !! ref).
Proof.
  assert (ref ≠ studentDocRef session
                  (normalizeStudentId (VStr (Admin.studentId st))) →
          (createStudent f now session st db).2 !! ref = db !! ref) as Hc.
  { intros Hne.
    destruct (createStudent_store f now session st db)
      as [-> | (_ & _ & _ & _ & _ & _ & ->)]; [done|].
    by rewrite lookup_insert_ne. }
  split; [done|]. intros Hschool. split.
  - apply Hc. intros ->. by apply Hschool.
  - destruct (importCSV_store f now session file st db) as [-> | [text ->]];
      [done|].
    apply commit_lookup_other. unfold importBatch.
    rewrite <-list_fmap_compose.
    intros (x & -> & _)%list_elem_of_fmap. by apply Hschool.
Qed.

(** Both handlers keep the store in order: every student stays filed
    under its own school and identifier, with a canonical identifier
    and a trimmed name that is not empty. *)
Theorem directory_keeps_storeOk (f : faults) (now : N) (session : Session.t)
    (st : Admin.t) (db : store) (file : option (outcome str)) :
  storeOk db →
  storeOk (createStudent f now session st db).2
  ∧ storeOk (importCSV f now session file st db).2.
Proof.
  intros Hdb. split.
  - destruct (createStudent_store f now session st db)
      as [-> | (_ & Hsid & Hname & _ & _ & _ & ->)]; [done|].
    apply map_Forall_insert_2; [|done].
    repeat split; [|done|apply trim_idemp]. cbn [snd studentDocRef].
    by destruct (normalizeStudentId_empty_or_canonical
                  (VStr (Admin.studentId st))).
  - destruct (importCSV_store f now session file st db) as [-> | [text ->]];
      [done|].
    unfold importBatch.
    assert (Forall (λ x, Cleaned.studentId x ≠ [] ∧ Cleaned.name x ≠ []
                         ∧ canonicalId (Cleaned.studentId x)
                         ∧ trim (Cleaned.name x) = Cleaned.name x)
              (take 200 (cleanRows (parseCSV (VStr text))))) as Hrows.
    { apply Forall_forall. intros x Hx. apply subseteq_take in Hx.
      unfold cleanRows in Hx.
      apply list_elem_of_filter in Hx as [[Hid Hname] Hx].
      apply list_elem_of_fmap in Hx as (r & -> & _).
      repeat split; [done..| |apply trim_idemp].
      by destruct (normalizeStudentId_empty_or_canonical (rawStudentId r)). }
    revert db Hdb. induction Hrows as [|x rows (Hid & Hname & Hcan & Htrim) _ IH];
      intros db Hdb; [done|].
    cbn [fmap list_fmap foldl fst snd]. apply IH.
    apply map_Forall_insert_2; [|done]. by repeat split.
Qed.



End DirectoryMore.

(** What a batch stores under a reference that it writes does not
    depend on what was stored before. *)
Lemma commit_lookup_base (batch : list ((str * str) * Student.t))
    (db1 db2 : store) (ref : str * str) :
  ref ∈ batch.*1 →
  foldl (λ d w, <[w.1 := w.2]> d) db1 batch !! ref
  = foldl (λ d w, <[w.1 := w.2]> d) db2 batch !! ref.
Proof.
  revert db1 db2. induction batch as [|w batch IH]; intros db1 db2 Hr.
  - by apply elem_of_nil in Hr.
  - cbn [foldl]. destruct (decide (ref ∈ batch.*1)) as [Hin|Hnot].
    + by apply IH.
    + rewrite fmap_cons in Hr. apply elem_of_cons in Hr as [-> | ?]; [|done].
      by rewrite !commit_lookup_other, !lookup_insert_eq.
Qed.

(** A batch applied after another batch with the same references
    overrides it completely. *)
Lemma commit_override (batch1 batch2 : list ((str * str) * Student.t))
    (db : store) :
  batch1.*1 = batch2.*1 →
  foldl (λ d w, <[w.1 := w.2]> d)
    (foldl (λ d w, <[w.1 := w.2]> d) db batch1) batch2
  = foldl (λ d w, <[w.1 := w.2]> d) db batch2.
Proof.
  intros Hrefs. apply map_eq. intros ref.
  destruct (decide (ref ∈ batch2.*1)) as [Hin|Hnot].
  - by apply commit_lookup_base.
  - rewrite (commit_lookup_other batch2) by done.
    rewrite (commit_lookup_other batch1) by (by rewrite Hrefs).
    by rewrite (commit_lookup_other batch2).
Qed.

Section ImportMore.
Context {cm : CaseMapping}.

(** Importing a file again overrides the first import: the store is the
    one that the second import alone would give, whether the first
    import was committed or not. *)
Theorem importCSV_again (f1 f2 : faults) (now1 now2 : N)
    (session : Session.t) (text : str) (st1 st2 : Admin.t) (db : store) :
  Session.role session = lit "admin" → commitFails f2 = false →
  (importCSV f2 now2 session (Some (Fulfilled text)) st2
     (importCSV f1 now1 session (Some (Fulfilled text)) st1 db).2).2
  = (importCSV f2 now2 session (Some (Fulfilled text)) st2 db).2.
Proof.
  intros Hrole Hcommit.
  destruct (cleanRows (parseCSV (VStr text))) as [|x rows] eqn:Hrows.
  { unfold importCSV. by rewrite Hrole, Hrows. }
  assert (cleanRows (parseCSV (VStr text)) ≠ []) as Hne by by rewrite Hrows.
  rewrite !(importCSV_commits f2) by done.
  destruct (commitFails f1) eqn:Hf1.
  - assert ((importCSV f1 now1 session (Some (Fulfilled text)) st1 db).2 = db)
      as ->; [|done].
    unfold importCSV, commit. by rewrite Hrole, Hrows, Hf1.
  - rewrite (importCSV_commits f1) by done. apply commit_override.
    unfold importBatch. by rewrite <-!list_fmap_compose.
Qed.

End ImportMore.

Lemma importCSV_again_witness :
  (importCSV (cm := asciiCase) noFaults 8 adminSession
     (Some (Fulfilled overwriteCsv))
     {| Admin.studentId := []; Admin.fullName := [];
        Admin.grade := defaultGrade; Admin.section := defaultSection;
        Admin.msg := MsgNone; Admin.saving := false;
        Admin.loadingLatest := false |}
     (importCSV (cm := asciiCase) noFaults 5 adminSession
        (Some (Fulfilled overwriteCsv))
        {| Admin.studentId := []; Admin.fullName := [];
           Admin.grade := defaultGrade; Admin.section := defaultSection;
           Admin.msg := MsgNone; Admin.saving := false;
           Admin.loadingLatest := false |} ∅).2).2
  = (importCSV (cm := asciiCase) noFaults 8 adminSession
       (Some (Fulfilled overwriteCsv))
       {| Admin.studentId := []; Admin.fullName := [];
          Admin.grade := defaultGrade; Admin.section := defaultSection;
          Admin.msg := MsgNone; Admin.saving := false;
          Admin.loadingLatest := false |} ∅).2.
Proof.
  apply (importCSV_again (cm := asciiCase)); reflexivity.
Defined.

Lemma directory_writes_need_admin_witness :
  createStudent (cm := asciiCase) noFaults 5
    {| Session.uid := lit "u2"; Session.role := lit "teacher";
       Session.name := lit "T"; Session.identifier := lit "t@example.org";
       Session.schoolId := SCHOOL_ID; Session.schoolName := SCHOOL_NAME |}
    {| Admin.studentId := lit "S-9"; Admin.fullName := lit "Ann";
       Admin.grade := defaultGrade; Admin.section := defaultSection;
       Admin.msg := MsgNone; Admin.saving := false;
       Admin.loadingLatest := false |} ∅
  = (setMsg MsgCreateNotAdmin
       {| Admin.studentId := lit "S-9"; Admin.fullName := lit "Ann";
          Admin.grade := defaultGrade; Admin.section := defaultSection;
          Admin.msg := MsgNone; Admin.saving := false;
          Admin.loadingLatest := false |}, ∅).
Proof.
  apply (proj1 (directory_writes_need_admin (cm := asciiCase) noFaults 5
                  {| Session.uid := lit "u2"; Session.role := lit "teacher";
                     Session.name := lit "T";
                     Session.identifier := lit "t@example.org";
                     Session.schoolId := SCHOOL_ID;
                     Session.schoolName := SCHOOL_NAME |}
                  _ ∅ Rejected ltac:(vm_compute; discriminate))).
Defined.

Lemma directory_frame_witness :
  (importCSV (cm := asciiCase) noFaults 5 adminSession
     (Some (Fulfilled overwriteCsv))
     {| Admin.studentId := []; Admin.fullName := [];
        Admin.grade := defaultGrade; Admin.section := defaultSection;
        Admin.msg := MsgNone; Admin.saving := false;
        Admin.loadingLatest := false |}
     {[ (lit "other-school", lit "S-1") := storedStudent ]}).2
    !! (lit "other-school", lit "S-1")
  = ({[ (lit "other-school", lit "S-1") := storedStudent ]} : store)
      !! (lit "other-school", lit "S-1").
Proof.
  apply (proj2 (directory_frame (cm := asciiCase) noFaults 5 adminSession
                  {| Admin.studentId := []; Admin.fullName := [];
                     Admin.grade := defaultGrade;
                     Admin.section := defaultSection;
                     Admin.msg := MsgNone; Admin.saving := false;
                     Admin.loadingLatest := false |}
                  {[ (lit "other-school", lit "S-1") := storedStudent ]}
                  (Some (Fulfilled overwriteCsv))
                  (lit "other-school", lit "S-1"))).
  vm_compute. discriminate.
Defined.

Lemma directory_keeps_storeOk_witness :
  storeOk (createStudent (cm := asciiCase) noFaults 5 adminSession
             {| Admin.studentId := lit "s9"; Admin.fullName := lit " Ann ";
                Admin.grade := defaultGrade; Admin.section := defaultSection;
                Admin.msg := MsgNone; Admin.saving := false;
                Admin.loadingLatest := false |} ∅).2.
Proof.
  apply (proj1 (directory_keeps_storeOk (cm := asciiCase) noFaults 5
                  adminSession _ ∅ None (map_Forall_empty _))).
Defined.



(** ** Notes *)

(** [saveNote] either refuses or fails, and then keeps the store and
    the typed comment, or it adds one note to the notes of the shown
    student and clears the comment. *)
Lemma saveNote_cases (addFails : bool) (listed : outcome (list Note.t))
    (now : N) (session : Session.t) (student : option Student.t)
    (st : Notes.t) (db : notesStore) :
  ((saveNote addFails listed now session student st db).2 = db
   ∧ Notes.comment (saveNote addFails listed now session student st db).1
     = Notes.comment st
   ∧ Notes.msg (saveNote addFails listed now session student st db).1
     ≠ NoteSaved)
  ∨ (∃ (s : Student.t) (note : Note.t),
       student = Some s ∧ addFails = false
       ∧ (saveNote addFails listed now session student st db).2
         = <[notesColRef session (Student.studentId s)
             := notesOf db (notesColRef session (Student.studentId s))
                ++ [note]]> db
       ∧ Note.schoolId note = Session.schoolId session
       ∧ Note.studentId note = Student.studentId s
       ∧ Note.studentId note ≠ []
       ∧ Note.comment note = trim (Notes.comment st)
       ∧ Note.comment note ≠ []
       ∧ Note.createdAt note = now
       ∧ CreatedBy.role (Note.createdBy note) = Session.role session
       ∧ Notes.comment (saveNote addFails listed now session student st db).1
         = []
       ∧ Notes.msg (saveNote addFails listed now session student st db).1
         = NoteSaved
       ∧ Notes.saving (saveNote addFails listed now session student st db).1
         = false).
Proof.
  unfold saveNote, addDoc. destruct student as [s|]; [|by left].
  destruct (Student.studentId s) as [|c sid] eqn:Eid; [by left|].
  change (Notes.comment (setNoteMsg NoNoteMessage st)) with (Notes.comment st).
  destruct (trim (Notes.comment st)) as [|n comment] eqn:Ec; [by left|].
  destruct addFails; [by left|]. right. eexists s, _.
  rewrite Eid. cbn [fst snd].
  split; [done|]. split; [done|]. split; [reflexivity|].
  cbn [Note.schoolId Note.studentId Note.comment Note.createdAt
       Note.createdBy CreatedBy.role setNoteSaving setNoteMsg Notes.comment].
  rewrite Ec. by repeat split.
Qed.

(** Notes are only ever added: whatever the handler does, the notes of
    every student keep the notes they had, in their order, and at most
    one note is added at the end. *)
Theorem saveNote_appends (addFails : bool) (listed : outcome (list Note.t))
    (now : N) (session : Session.t) (student : option Student.t)
    (st : Notes.t) (db : notesStore) (ref : str * str) :
  ∃ added : list Note.t,
    notesOf (saveNote addFails listed now session student st db).2 ref
    = notesOf db ref ++ added
    ∧ (length added ≤ 1)%nat
    ∧ ∀ note, note ∈ added →
        ref = (Session.schoolId session, Note.studentId note)
        ∧ Note.comment note ≠ []
        ∧ trim (Note.comment note) = Note.comment note.
Proof.
  destruct (saveNote_cases addFails listed now session student st db)
    as [(-> & _) | (s & note & _ & _ & -> & Hschool & Hid & _ & Hc & Hne & _)].
  - exists []. rewrite app_nil_r. split; [done|]. split; [simpl; lia|].
    by intros note' ?%elem_of_nil.
  - unfold notesOf at 1.
    destruct (decide (ref = notesColRef session (Student.studentId s)))
      as [->|Hne'].
    + rewrite lookup_insert_eq. exists [note]. split; [done|].
      split; [simpl; lia|]. intros note' ->%list_elem_of_singleton.
      split; [by rewrite Hid|]. split; [done|]. rewrite Hc. apply trim_idemp.
    + rewrite lookup_insert_ne by done. exists [].
      rewrite app_nil_r. split; [done|]. split; [simpl; lia|].
      by intros note' ?%elem_of_nil.
Qed.

(** A click on the save button changes the notes only when the role
    may write notes, no save is running, a student with an identifier
    is shown, the comment is not blank and the store accepts the note;
    otherwise the store and the typed comment stay as they are. *)
Theorem clickSaveNote_writes_only_if (addFails : bool)
    (listed : outcome (list Note.t)) (now : N) (session : Session.t)
    (student : option Student.t) (st : Notes.t) (db : notesStore) :
  let result := clickSaveNote addFails listed now session student st db in
  (result.2 = db ∧ Notes.comment result.1 = Notes.comment st)
  ∨ (canWriteNotes session = true ∧ Notes.saving st = false
     ∧ addFails = false ∧ trim (Notes.comment st) ≠ []
     ∧ (∃ s, student = Some s ∧ Student.studentId s ≠ []
             ∧ length (notesOf result.2
                         (notesColRef session (Student.studentId s)))
               = S (length (notesOf db
                              (notesColRef session (Student.studentId s)))))
     ∧ Notes.comment result.1 = [] ∧ Notes.msg result.1 = NoteSaved).
Proof.
  intros result. unfold result, clickSaveNote.
  destruct student as [s|]; [|by left].
  destruct (canWriteNotes session) eqn:Hrole; [|by left].
  destruct (Notes.saving st) eqn:Hsaving; [by left|]. cbn [andb negb].
  destruct (saveNote_cases addFails listed now session (Some s) st db)
    as [(E1 & E2 & _)
       | (s' & note & [= <-] & Hadd & E & _ & Hid & Hne & Hc & Hcne & _
          & _ & Hcom & Hmsg & _)].
  - left. by split.
  - right. repeat split; try done; [by rewrite <-Hc|].
    exists s. repeat split; [by rewrite <-Hid|]. rewrite E.
    unfold notesOf at 1. rewrite lookup_insert_eq. cbn [default from_option id].
    rewrite length_app. simpl. lia.
Qed.

Lemma saveNote_appends_witness :
  ∃ added : list Note.t,
    notesOf (saveNote false Rejected 3 adminSession (Some storedStudent)
               {| Notes.noteType := Positive; Notes.location := lit "class";
                  Notes.category := lit "conduct"; Notes.comment := lit " ok ";
                  Notes.saving := false; Notes.msg := NoNoteMessage;
                  Notes.notes := []; Notes.loadingNotes := false |} ∅).2
      (SCHOOL_ID, lit "S-1")
    = notesOf ∅ (SCHOOL_ID, lit "S-1") ++ added
    ∧ (length added ≤ 1)%nat
    ∧ ∀ note, note ∈ added →
        (SCHOOL_ID, lit "S-1")
        = (Session.schoolId adminSession, Note.studentId note)
        ∧ Note.comment note ≠ []
        ∧ trim (Note.comment note) = Note.comment note.
Proof. apply saveNote_appends. Defined.

Lemma clickSaveNote_writes_only_if_witness :
  let result :=
    clickSaveNote false Rejected 3
      {| Session.uid := lit "u3"; Session.role := lit "parent";
         Session.name := lit "P"; Session.identifier := lit "p@example.org";
         Session.schoolId := SCHOOL_ID; Session.schoolName := SCHOOL_NAME |}
      (Some storedStudent)
      {| Notes.noteType := Positive; Notes.location := lit "class";
         Notes.category := lit "conduct"; Notes.comment := lit "ok";
         Notes.saving := false; Notes.msg := NoNoteMessage;
         Notes.notes := []; Notes.loadingNotes := false |} ∅ in
  result.2 = ∅ ∧ Notes.comment result.1 = lit "ok".
Proof.
  intros result.
  destruct (clickSaveNote_writes_only_if false Rejected 3
              {| Session.uid := lit "u3"; Session.role := lit "parent";
                 Session.name := lit "P";
                 Session.identifier := lit "p@example.org";
                 Session.schoolId := SCHOOL_ID;
                 Session.schoolName := SCHOOL_NAME |}
              (Some storedStudent)
              {| Notes.noteType := Positive; Notes.location := lit "class";
                 Notes.category := lit "conduct"; Notes.comment := lit "ok";
                 Notes.saving := false; Notes.msg := NoNoteMessage;
                 Notes.notes := []; Notes.loadingNotes := false |} ∅)
    as [Hkept | (Hrole & _)]; [exact Hkept | discriminate Hrole].
Defined.

(** ** Login *)

Lemma startsWith_app (s p q : str) :
  startsWith s (p ++ q) = true → startsWith s p = true.
Proof.
  revert s. induction p as [|a p IH]; intros s Hs; [done|].
  destruct s as [|b s]; [done|]. cbn [app startsWith] in *.
  apply andb_true_iff in Hs as [-> Hs]. by rewrite (IH _ Hs).
Qed.

Lemma includes_app (s p q : str) :
  includes s (p ++ q) = true → includes s p = true.
Proof.
  induction s as [|c s IH]; cbn [includes]; intros Hs.
  - apply orb_true_iff in Hs as [Hs|Hs]; [|done].
    by rewrite (startsWith_app _ _ _ Hs).
  - apply orb_true_iff in Hs as [Hs|Hs].
    + by rewrite (startsWith_app _ _ _ Hs).
    + rewrite (IH Hs). apply orb_true_r.
Qed.

(** An error whose code does not hold [auth/], and so an error without
    a code, gets the general message. *)
Theorem mapAuthError_unknown (errCode : value) :
  includes (stringOrEmpty errCode) (lit "auth/") = false →
  mapAuthError errCode = AuthUnknown.
Proof.
  intros Hno.
  assert (∀ rest,
            includes (stringOrEmpty errCode) (lit "auth/" ++ rest) = false)
    as Hrest.
  { intros rest. destruct (includes _ (_ ++ rest)) eqn:E; [|done].
    apply includes_app in E. congruence. }
  unfold mapAuthError. cbn zeta.
  change (lit "auth/invalid-credential")
    with (lit "auth/" ++ lit "invalid-credential").
  change (lit "auth/wrong-password") with (lit "auth/" ++ lit "wrong-password").
  change (lit "auth/user-not-found") with (lit "auth/" ++ lit "user-not-found").
  change (lit "auth/invalid-email") with (lit "auth/" ++ lit "invalid-email").
  change (lit "auth/too-many-requests")
    with (lit "auth/" ++ lit "too-many-requests").
  change (lit "auth/admin-restricted-operation")
    with (lit "auth/" ++ lit "admin-restricted-operation").
  by rewrite !Hrest.
Qed.

Lemma mapAuthError_unknown_witness :
  mapAuthError (VStr (lit "permission-denied")) = AuthUnknown.
Proof. apply mapAuthError_unknown. reflexivity. Defined.

(** [handleSubmit] calls the sign-in at most once, and only with an
    e-mail address and a password that are not empty: the address is
    the trimmed input, the password is the input as typed.  It does so
    exactly when both are given; the error is empty exactly when the
    call was made and succeeded, and the inputs are kept. *)
Theorem handleSubmit_calls (result : signInResult) (st : Login.t) :
  let r := handleSubmit result st in
  (length r.2 ≤ 1)%nat
  ∧ (∀ call, call ∈ r.2 →
       call.1 = trim (Login.identifier st) ∧ call.1 ≠ []
       ∧ trim call.1 = call.1
       ∧ call.2 = Login.password st ∧ call.2 ≠ [])
  ∧ (r.2 = [] ↔ trim (Login.identifier st) = [] ∨ Login.password st = [])
  ∧ (Login.error r.1 = NoLoginError ↔ r.2 ≠ [] ∧ result = SignedIn)
  ∧ (r.2 ≠ [] → Login.busy r.1 = false)
  ∧ Login.identifier r.1 = Login.identifier st
  ∧ Login.password r.1 = Login.password st.
Proof.
  unfold handleSubmit. cbn zeta.
  destruct (trim (Login.identifier st)) as [|c email] eqn:Eemail.
  { cbn [fst snd length Login.error]. split; [lia|].
    split; [by intros call ?%elem_of_nil|]. split; [by split; [left|]|].
    split; [|done]. by split; [|intros [? _]]. }
  destruct (Login.password st) as [|p password] eqn:Epw.
  { cbn [fst snd length Login.error]. split; [lia|].
    split; [by intros call ?%elem_of_nil|]. split; [by split; [right|]|].
    split; [|done]. by split; [|intros [? _]]. }
  cbn [fst snd length Login.error Login.busy Login.identifier Login.password].
  split; [lia|]. split.
  { intros call ->%list_elem_of_singleton. cbn [fst snd].
    repeat split; try done. rewrite <-Eemail. apply trim_idemp. }
  split; [by split; [|intros [|]]|]. split; [|done].
  destruct result; split; try done. by intros [_ ?].
Qed.

Lemma handleSubmit_calls_witness :
  Login.busy
    (handleSubmit (SignInRejected (VStr (lit "auth/wrong-password")))
       {| Login.identifier := lit " a@example.org ";
          Login.password := lit " pw"; Login.busy := false;
          Login.error := NoLoginError |}).1
  = false.
Proof.
  apply (proj1 (proj2 (proj2 (proj2 (proj2
           (handleSubmit_calls
              (SignInRejected (VStr (lit "auth/wrong-password")))
              {| Login.identifier := lit " a@example.org ";
                 Login.password := lit " pw"; Login.busy := false;
                 Login.error := NoLoginError |})))))).
  vm_compute. discriminate.
Defined.

(** ** More on the session and role resolver *)

(** Whatever the fetch of the role document gives, the session belongs
    to the authenticated identity and to the one school; its role is
    not empty, and it is [unknown] unless the document holds a role,
    which then is taken as it is; a session with the role [unknown]
    has the default name; and the identifier is the address of the
    document, the address of the identity or the uid, and is not empty
    if the uid is not. *)
Theorem resolveSession_shape (u : FbUser.t)
    (snap : outcome (option RoleDoc.t)) :
  let s := resolveSession u snap in
  Session.uid s = FbUser.uid u
  ∧ Session.schoolId s = SCHOOL_ID ∧ Session.schoolName s = SCHOOL_NAME
  ∧ Session.role s ≠ []
  ∧ (Session.role s = lit "unknown"
     ∨ ∃ data, snap = Fulfilled (Some data)
               ∧ RoleDoc.role data = VStr (Session.role s))
  ∧ (Session.role s = lit "unknown" → Session.name s = defaultUserName)
  ∧ (Session.identifier s = FbUser.uid u
     ∨ FbUser.email u = VStr (Session.identifier s)
     ∨ ∃ data, snap = Fulfilled (Some data)
               ∧ RoleDoc.email data = VStr (Session.identifier s))
  ∧ (FbUser.uid u ≠ [] → Session.identifier s ≠ []).
Proof.
  destruct u as [uid email]. unfold resolveSession, resolveTry, unknownSession.
  destruct snap as [|[[role demail]|]];
    cbn [Session.uid Session.schoolId Session.schoolName Session.role
         Session.name Session.identifier FbUser.uid FbUser.email
         RoleDoc.role RoleDoc.email].
  - repeat split; [done|by left|..].
    + destruct email as [| |[|]]; first [by left | by right; left].
    + by destruct email as [| |[|]].
  - repeat split.
    + by destruct role as [| |[|]].
    + destruct role as [| |[|c role]]; [by left..|]. right. by eexists.
    + destruct role as [| |[|c role]]; [done..|].
      cbn [jsOr truthy strOf]. by intros ->.
    + destruct demail as [| |[|c demail]];
        [destruct email as [| |[|]]; first [by left | by right; left]..|].
      right. right. by eexists.
    + destruct demail as [| |[|c demail]]; [..|done];
        by destruct email as [| |[|]].
  - repeat split; [done|by left|..].
    + destruct email as [| |[|]]; first [by left | by right; left].
    + by destruct email as [| |[|]].
Qed.

Lemma resolveSession_shape_witness :
  Session.identifier
    (resolveSession {| FbUser.uid := lit "u7"; FbUser.email := VNull |}
       (Fulfilled (Some {| RoleDoc.role := VStr (lit "teacher");
                           RoleDoc.email := VUndefined |})))
  ≠ [].
Proof.
  apply (resolveSession_shape
           {| FbUser.uid := lit "u7"; FbUser.email := VNull |}
           (Fulfilled (Some {| RoleDoc.role := VStr (lit "teacher");
                               RoleDoc.email := VUndefined |}))).
  vm_compute. discriminate.
Defined.

(** ** More on the scanner *)

Lemma decodedTexts_cons (e : scanEvent) (events : list scanEvent) :
  decodedTexts (e :: events)
  = match e with Decode (Some text) => [text] | _ => [] end
    ++ decodedTexts events.
Proof. reflexivity. Qed.

(** A timer that is pending after a step was pending before it, or was
    set by the step for the text it decoded. *)
Lemma scanStep_pending (sessionId : N) (e : scanEvent) (sc : Scanner.t)
    (text : str) :
  Scanner.pendingTimeout (scanStep sessionId e sc).1 = Some text →
  Scanner.pendingTimeout sc = Some text ∨ e = Decode (Some text).
Proof.
  destruct sc as [did pending st reason].
  destruct e as [| |message|[result|]| | | |]; cbn [scanStep fst];
    try (by left); try done.
  - destruct did; cbn; [by left|]. intros [= ->]. by right.
  - destruct pending; by cbn.
Qed.

(** The scanner invents nothing: every result that it hands over
    carries its own session token and a text that a decode callback of
    the run has received, or for which a timer was pending when the run
    began. *)
Theorem scanRun_origin (sessionId : N) (events : list scanEvent)
    (sc : Scanner.t) (text : str) (sid : N) :
  (text, sid) ∈ onScanCalls (scanRun sessionId events sc).2 →
  sid = sessionId
  ∧ (Scanner.pendingTimeout sc = Some text ∨ text ∈ decodedTexts events).
Proof.
  revert sc. induction events as [|e events IH]; intros sc Hin.
  { by apply elem_of_nil in Hin. }
  rewrite scanRun_cons in Hin. cbn [snd] in Hin.
  rewrite onScanCalls_app in Hin. apply elem_of_app in Hin as [Hin|Hin].
  - destruct sc as [did pending st reason].
    destruct e as [| |message|[result|]| | | |]; cbn [scanStep snd] in Hin;
      try (by apply elem_of_nil in Hin).
    + destruct did; by apply elem_of_nil in Hin.
    + destruct pending as [pendingText|]; cbn in Hin;
        [|by apply elem_of_nil in Hin].
      apply list_elem_of_singleton in Hin as [= -> ->]. by split; [|left].
  - destruct (IH _ Hin) as [-> [Hp|Hd]]; (split; [done|]).
    + destruct (scanStep_pending _ _ _ _ Hp) as [ | -> ]; [by left|].
      right. rewrite decodedTexts_cons. by left.
    + right. rewrite decodedTexts_cons. apply elem_of_app. by right.
Qed.

Lemma scanRun_origin_witness :
  7 = 7
  ∧ (Scanner.pendingTimeout scannerMounted = Some (lit "S-1")
     ∨ lit "S-1"
       ∈ decodedTexts
           [StartCamera; CameraArmed; Decode (Some (lit "S-1")); TimerFires]).
Proof.
  apply (scanRun_origin 7
           [StartCamera; CameraArmed; Decode (Some (lit "S-1")); TimerFires]
           scannerMounted (lit "S-1") 7).
  vm_compute. by left.
Defined.

(** A result that has been decoded is dropped when the user goes back,
    or the page is left, before the timer elapses: nothing is handed
    over then or later in the session, whatever callbacks still
    arrive. *)
Theorem scanner_leave_drops_result (sessionId : N) (sc : Scanner.t)
    (text : str) (e : scanEvent) (rest : list scanEvent) :
  e = BackButton ∨ e = Unmount →
  Forall (λ e, inSession e = true) rest →
  onScanCalls (scanRun sessionId (Decode (Some text) :: e :: rest) sc).2 = [].
Proof.
  intros He Hrest. rewrite !scanRun_cons. cbn [fst snd].
  set (left := (scanStep sessionId e
                  (scanStep sessionId (Decode (Some text)) sc).1).1).
  assert (scanCredit left = 0%nat
          ∧ onScanCalls (scanStep sessionId (Decode (Some text)) sc).2 = []
          ∧ onScanCalls
              (scanStep sessionId e
                 (scanStep sessionId (Decode (Some text)) sc).1).2 = [])
    as (Hcredit & Hdecode & Hcalls).
  { unfold left. destruct sc as [[|] pending st reason];
      by destruct He as [-> | ->]. }
  rewrite !onScanCalls_app, Hdecode, Hcalls. cbn [app].
  pose proof (scanRun_credit sessionId rest left Hrest) as Hle.
  rewrite Hcredit in Hle.
  destruct (onScanCalls (scanRun sessionId rest left).2); [done|].
  cbn [length] in Hle. lia.
Qed.

Lemma scanner_leave_drops_result_witness :
  onScanCalls
    (scanRun 7
       [Decode (Some (lit "S-1")); BackButton; TimerFires;
        Decode (Some (lit "S-2")); TimerFires]
       (scanStep 7 StartCamera scannerMounted).1).2
  = [].
Proof.
  apply scanner_leave_drops_result; [by left|]. repeat constructor.
Defined.

(** ** Pages *)

Section PagesMore.
Context {cm : CaseMapping}.

(** A call of [openStudentById] that is not interrupted is its first
    half followed at once by its second half. *)
Lemma openStudentById_start_resume (f : faults) (db : store)
    (session : Session.t) (raw : value) (token : N) (app : App.t) :
  openStudentById f db session raw token app
  = match openStudentByIdStart raw token app with
    | (app', Some sid) =>
        (openStudentByIdResume sid (getDoc f db (studentDocRef session sid))
           app',
         [studentDocRef session sid])
    | (app', None) => (app', [])
    end.
Proof.
  unfold openStudentById, openStudentByIdStart.
  destruct (negb _); [done|].
  destruct (normalizeStudentId raw) as [|c sid]; [done|].
  by destruct (getDoc _ _ _) as [|[d|]].
Qed.

Lemma uiRunFrom_cons (f : faults) (db : store) (session : Session.t)
    (e : uiEvent) (events : list uiEvent) (ui : Ui.t) :
  uiRunFrom f db session (e :: events) ui
  = uiRunFrom f db session events (uiStep f db session e ui).
Proof. reflexivity. Qed.

(** What an event does to the state of [App]: nothing, a navigation,
    the first half of a lookup on the scanner page, or the second half
    of a lookup. *)
Lemma uiStep_cases (f : faults) (db : store) (session : Session.t)
    (e : uiEvent) (ui : Ui.t) :
  Ui.app (uiStep f db session e ui) = Ui.app ui
  ∨ (∃ target, target ≠ PStudent
               ∧ Ui.app (uiStep f db session e ui)
                 = navigate target (Ui.app ui))
  ∨ (∃ raw token,
       Ui.app (uiStep f db session e ui)
       = (openStudentByIdStart raw token (Ui.app ui)).1)
  ∨ (∃ sid,
       Ui.app (uiStep f db session e ui)
       = openStudentByIdResume sid (getDoc f db (studentDocRef session sid))
           (Ui.app ui)).
Proof.
  unfold uiStep, goDashboard, goScanner, goAdminStudents.
  destruct e as [index| |[text sid|]| | | | |index].
  9:{ destruct (_ !! index) as [sid|]; [|by left]. do 3 right. by eexists. }
  all: destruct (bool_decide _); [by left|].
  all: destruct (App.page (Ui.app ui)) eqn:Hpage; try (by left);
    try (by right; left; eexists; split; [|reflexivity]).
  - destruct (dashboardCards _) as [cards|]; [|by left].
    destruct (_ !! index) as [c|]; [|by left].
    destruct (Card.action c) as [[|]|]; [..|by left];
      by right; left; eexists; split; [|reflexivity].
  - destruct (dashboardCards _) as [cards|]; [|by left].
    by right; left; eexists; split; [|reflexivity].
  - right. right. left. by eexists _, _.
Qed.








Lemma uiRunFrom_counter (f : faults) (db : store) (session : Session.t)
    (events : list uiEvent) (ui : Ui.t) :
  App.scanSession (Ui.app ui)
  ≤ App.scanSession (Ui.app (uiRunFrom f db session events ui)).
Proof.
  revert ui. induction events as [|e events IH]; intros ui; [done|].
  rewrite uiRunFrom_cons. etrans; [|apply IH].
  destruct (uiStep_cases f db session e ui)
    as [E | [(target & Ht & E) | [(raw & token & E) | (sid & E)]]];
    rewrite E; [done | apply jsIncrement_mono |..].
  - unfold openStudentByIdStart. destruct (negb _); [done|].
    by destruct (normalizeStudentId raw).
  - by destruct (getDoc _ _ _) as [|[d|]].
Qed.

(** The scan-session counter never goes back, so a result that is
    stale stays stale: whatever the user does in between, a result
    with a token below the counter is dropped without a lookup. *)
Theorem uiRun_keeps_stale (f : faults) (db : store) (session : Session.t)
    (events : list uiEvent) (app : App.t) (raw : value) (token : N) :
  token < App.scanSession app →
  App.scanSession app ≤ App.scanSession (uiRun f db session events app)
  ∧ openStudentById f db session raw token (uiRun f db session events app)
    = (uiRun f db session events app, []).
Proof.
  intros Hstale.
  pose proof (uiRunFrom_counter f db session events
                {| Ui.app := app; Ui.awaiting := [] |}) as Hle.
  split; [done|]. unfold openStudentById.
  destruct (N.eqb_spec token
              (App.scanSession (uiRun f db session events app)));
    [|done]. unfold uiRun in *. cbn [Ui.app] in Hle. lia.
Qed.

Lemma dashboardCards_no_action (role : str) :
  role ∈ [lit "teacher"; lit "counselor"; lit "parent"] →
  ∃ cards, dashboardCards role = Some cards
           ∧ Forall (λ c, Card.action c = None) cards.
Proof.
  intros Hrole. repeat apply elem_of_cons in Hrole as [-> | Hrole];
    [eexists; split; [reflexivity|]; by repeat constructor..|].
  by apply elem_of_nil in Hrole.
Qed.

(** Only an administrator leaves the dashboard: the cards of a teacher,
    a counselor and a parent carry no action, so for these roles the
    page stays the dashboard and no student is ever shown. *)
Theorem dashboard_only_for_admin (f : faults) (db : store)
    (session : Session.t) (events : list uiEvent) (app : App.t) :
  Session.role session ∈ [lit "teacher"; lit "counselor"; lit "parent"] →
  App.page app = PDashboard → App.student app = None →
  App.page (uiRun f db session events app) = PDashboard
  ∧ App.student (uiRun f db session events app) = None.
Proof.
  intros Hrole Hpage Hstudent.
  destruct (dashboardCards_no_action _ Hrole) as (cards & Hcards & Hnone).
  unfold uiRun.
  assert (∀ ui, App.page (Ui.app ui) = PDashboard →
                App.student (Ui.app ui) = None → Ui.awaiting ui = [] →
                App.page (Ui.app (uiRunFrom f db session events ui))
                = PDashboard
                ∧ App.student (Ui.app (uiRunFrom f db session events ui))
                  = None) as Hrun; [|by apply Hrun].
  clear app Hpage Hstudent.
  induction events as [|e events IH]; intros ui Hpage Hstudent Hwait; [done|].
  rewrite uiRunFrom_cons.
  assert (uiStep f db session e ui = ui
          ∨ uiStep f db session e ui
            = {| Ui.app := navigate PDashboard (Ui.app ui);
                 Ui.awaiting := Ui.awaiting ui |}) as [-> | ->];
    [|by apply IH..].
  unfold uiStep. rewrite Hpage, Hcards, Hwait.
  destruct e as [index| |c| | | | |index]; try (by left);
    destruct (bool_decide _); try (by left).
  - destruct (cards !! index) as [c|] eqn:Hc; [|by left].
    rewrite Forall_forall in Hnone.
    rewrite (Hnone c) by by eapply list_elem_of_lookup_2. by left.
  - by right.
Qed.

End PagesMore.


Lemma uiRun_keeps_stale_witness :
  openStudentById (cm := asciiCase) noFaults ∅ adminSession
    (VStr (lit "S-1")) 0
    (uiRun (cm := asciiCase) noFaults ∅ adminSession [ClickRescan]
       (goScanner appStart))
  = (uiRun (cm := asciiCase) noFaults ∅ adminSession [ClickRescan]
       (goScanner appStart), []).
Proof.
  apply (uiRun_keeps_stale (cm := asciiCase)). vm_compute. reflexivity.
Defined.

Lemma dashboard_only_for_admin_witness :
  App.page
    (uiRun (cm := asciiCase) noFaults ∅
       {| Session.uid := lit "u2"; Session.role := lit "teacher";
          Session.name := lit "T"; Session.identifier := lit "t@example.org";
          Session.schoolId := SCHOOL_ID; Session.schoolName := SCHOOL_NAME |}
       [ClickCard 0; ClickRescan; ClickSignOut; ClickCard 1] appStart)
  = PDashboard
  ∧ App.student
      (uiRun (cm := asciiCase) noFaults ∅
         {| Session.uid := lit "u2"; Session.role := lit "teacher";
            Session.name := lit "T"; Session.identifier := lit "t@example.org";
            Session.schoolId := SCHOOL_ID; Session.schoolName := SCHOOL_NAME |}
         [ClickCard 0; ClickRescan; ClickSignOut; ClickCard 1] appStart)
    = None.
Proof.
  apply (dashboard_only_for_admin (cm := asciiCase)); [|reflexivity..].
  cbn [Session.role]. by left.
Defined.

(** A fetch that settles after the user has gone back still opens the
    student page: the call compares its token only before the fetch. *)
Example lookup_settles_after_back :
  uiRun (cm := asciiCase) noFaults
    {[ (SCHOOL_ID, lit "S-1") := storedStudent ]} adminSession
    [ClickCard 1; ScannerCalls (OnScan (lit "s1") 1);
     ScannerCalls OnGoDashboard; FetchSettles 0]
    appStart
  = {| App.page := PStudent; App.student := Some storedStudent;
       App.studentLoadError := NoError; App.scanSession := 2 |}.
Proof. vm_compute. reflexivity. Qed.

(** Of two lookups that overlap, the second with a text that is no
    identifier, the first leaves its student beside the error of the
    second. *)
Example overlapping_lookups_keep_error :
  uiRun (cm := asciiCase) noFaults
    {[ (SCHOOL_ID, lit "S-1") := storedStudent ]} adminSession
    [ClickCard 1; ScannerCalls (OnScan (lit "s1") 1);
     ScannerCalls (OnScan (lit "http://x") 1); FetchSettles 0]
    appStart
  = {| App.page := PStudent; App.student := Some storedStudent;
       App.studentLoadError := InvalidQR; App.scanSession := 1 |}.
Proof. vm_compute. reflexivity. Qed.
